(** * libtnb/sessions: the session lifecycle and the merge-on-save protocol

    A shallow embedding of [session.go] and of the session manager, with the
    properties of the specification proved (or refuted) over it.

    Go maps are [gmap]s, the [forgets] map (only ever assigned [true]) is a
    [gset], interface values of type [any] are a tagged variant, Go methods
    with a pointer receiver are computations in a state-and-panic monad over
    the process state, and the calls made on collaborators (driver, codec,
    lock registry) are recorded in a trace. *)

From Stdlib Require Import ZArith String Ascii List.
From stdpp Require Import gmap strings list fin_maps pretty.

Local Open Scope string_scope.
#[local] Set Warnings "-clear-no-such-hyp".

(** ** Values of type [any] *)

#[warnings="-register-all"]
Inductive value : Type :=
| VNil
| VBool (b : bool)
| VInt (n : Z)
| VStr (s : string)
| VSlice (l : list value).

Definition error := string.

Inductive res (A : Type) : Type :=
| Ok (a : A)
| Err (e : error).
Arguments Ok {A} a.
Arguments Err {A} e.

(** ** External packages, modelled by their documented behaviour *)

(** [github.com/spf13/cast]: [ToString] never fails (the error of [ToStringE]
    is dropped and the zero value returned); [ToStringSlice] of a [[]any]
    converts element by element. *)
Module cast.

Definition ToString (v : value) : string :=
  match v with
  | VNil => ""
  | VBool true => "true"
  | VBool false => "false"
  | VInt n => pretty n
  | VStr s => s
  | VSlice _ => ""
  end.

Definition ToStringSlice (l : list value) : list string := map ToString l.

End cast.

(** [github.com/libtnb/utils/maps] on [map[string]any]. *)
Module maps.

Definition Exists (m : gmap string value) (key : string) : bool :=
  bool_decide (is_Some (m !! key)).

Definition Get (m : gmap string value) (key : string) (defaultValue : list value) : value :=
  match m !! key with
  | Some v => v
  | None => match defaultValue with d :: _ => d | [] => VNil end
  end.

Definition Forget (m : gmap string value) (keys : list string) : gmap string value :=
  foldl (fun acc key => delete key acc) m keys.

Definition Pull (m : gmap string value) (key : string) (def : list value)
  : value * gmap string value :=
  match m !! key with
  | Some v => (v, delete key m)
  | None => (match def with d :: _ => d | [] => VNil end, m)
  end.

Definition Only (m : gmap string value) (keys : list string) : gmap string value :=
  filter (fun kv => kv.1 ∈ keys) m.

End maps.

(** [slices.Contains(values, any(key))]: interface equality with a string. *)
Module slices.

Definition is_str (key : string) (v : value) : bool :=
  match v with VStr s => bool_decide (s = key) | _ => false end.

Definition Contains (values : list value) (key : string) : bool :=
  existsb (is_str key) values.

Definition DeleteFunc (l : list value) (del : value → bool) : list value :=
  List.filter (fun v => negb (del v)) l.

End slices.

(** [github.com/libtnb/securecookie]: the codec capability. *)
Module securecookie.

Record Codec : Type := {
  Encode : string → gmap string value → res string;
  Decode : string → string → res (gmap string value)
}.

End securecookie.

(** [github.com/libtnb/sessions/driver]: the storage capability.  [D] is the
    state of the backend; [Read] observes it, the other calls may change it. *)
Module driver.

Class Driver (D : Type) : Type := {
  Read : D → string → res string;
  Write : D → string → string → option error * D;
  Destroy : D → string → option error * D;
  Gc : D → Z → option error * D
}.

End driver.

(** [github.com/jaevor/go-nanoid]: [MustCustomASCII alphabet n] returns a
    generator of [n]-character strings over [alphabet].  The random source is
    a tape of numbers read from a cursor. *)
Module nanoid.

Definition pick (alphabet : string) (r : nat) : ascii :=
  match String.get (r mod String.length alphabet) alphabet with
  | Some c => c
  | None => "0"%char
  end.

Fixpoint generate (alphabet : string) (tape : nat → nat) (pos n : nat) : string :=
  match n with
  | O => EmptyString
  | S n' => String (pick alphabet (tape pos)) (generate alphabet tape (S pos) n')
  end.

Definition MustCustomASCII (alphabet : string) (n : nat) (tape : nat → nat) (pos : nat)
  : string * nat :=
  (generate alphabet tape pos n, pos + n).

End nanoid.

(** The standard library's [maps.Copy dst src]: a loop assigning every entry
    of [src] into [dst]. *)
Module stdmaps.

Definition Copy (dst src : gmap string value) : gmap string value :=
  map_fold (fun k v acc => <[k:=v]> acc) dst src.

End stdmaps.

(** ** The session *)

Record Session : Type := mkSession {
  id : string;
  name : string;
  attributes : gmap string value;
  codec : option securecookie.Codec;
  driver : option string;   (* the handler, as its key in the manager's registry *)
  manager : bool;           (* whether the manager pointer is non-nil *)
  started : bool;
  dirty : bool;
  flushed : bool;
  puts : gmap string value;
  forgets : gset string
}.

Definition with_id (v : string) (s : Session) : Session :=
  mkSession v (name s) (attributes s) (codec s) (driver s) (manager s)
            (started s) (dirty s) (flushed s) (puts s) (forgets s).
Definition with_name (v : string) (s : Session) : Session :=
  mkSession (id s) v (attributes s) (codec s) (driver s) (manager s)
            (started s) (dirty s) (flushed s) (puts s) (forgets s).
Definition with_attributes (v : gmap string value) (s : Session) : Session :=
  mkSession (id s) (name s) v (codec s) (driver s) (manager s)
            (started s) (dirty s) (flushed s) (puts s) (forgets s).
Definition with_codec (v : option securecookie.Codec) (s : Session) : Session :=
  mkSession (id s) (name s) (attributes s) v (driver s) (manager s)
            (started s) (dirty s) (flushed s) (puts s) (forgets s).
Definition with_driver (v : option string) (s : Session) : Session :=
  mkSession (id s) (name s) (attributes s) (codec s) v (manager s)
            (started s) (dirty s) (flushed s) (puts s) (forgets s).
Definition with_manager (v : bool) (s : Session) : Session :=
  mkSession (id s) (name s) (attributes s) (codec s) (driver s) v
            (started s) (dirty s) (flushed s) (puts s) (forgets s).
Definition with_started (v : bool) (s : Session) : Session :=
  mkSession (id s) (name s) (attributes s) (codec s) (driver s) (manager s)
            v (dirty s) (flushed s) (puts s) (forgets s).
Definition with_dirty (v : bool) (s : Session) : Session :=
  mkSession (id s) (name s) (attributes s) (codec s) (driver s) (manager s)
            (started s) v (flushed s) (puts s) (forgets s).
Definition with_flushed (v : bool) (s : Session) : Session :=
  mkSession (id s) (name s) (attributes s) (codec s) (driver s) (manager s)
            (started s) (dirty s) v (puts s) (forgets s).
Definition with_puts (v : gmap string value) (s : Session) : Session :=
  mkSession (id s) (name s) (attributes s) (codec s) (driver s) (manager s)
            (started s) (dirty s) (flushed s) v (forgets s).
Definition with_forgets (v : gset string) (s : Session) : Session :=
  mkSession (id s) (name s) (attributes s) (codec s) (driver s) (manager s)
            (started s) (dirty s) (flushed s) (puts s) v.

(** What the pool's [New] allocates, and what [reset] restores. *)
Definition pristine : Session :=
  mkSession "" "" ∅ None None false false false false ∅ ∅.

(** *** Accessors: the in-memory [attributes] only *)

Definition All (s : Session) : gmap string value := attributes s.

Definition Exists (s : Session) (key : string) : bool := maps.Exists (attributes s) key.

Definition Get (s : Session) (key : string) (defaultValue : list value) : value :=
  maps.Get (attributes s) key defaultValue.

Definition GetID (s : Session) : string := id s.

Definition GetName (s : Session) : string := name s.

Definition Has (s : Session) (key : string) : bool :=
  match attributes s !! key with
  | None => false
  | Some VNil => false
  | Some _ => true
  end.

Definition IsDirty (s : Session) : bool := dirty s.

Definition IsStarted (s : Session) : bool := started s.

Definition Missing (s : Session) (key : string) : bool := negb (Exists s key).

Definition Only (s : Session) (keys : list string) : gmap string value :=
  maps.Only (attributes s) keys.

(** *** Mutators that cannot fail *)

Definition Flush (s : Session) : Session :=
  with_dirty true (with_flushed true (with_forgets ∅ (with_puts ∅ (with_attributes ∅ s)))).

(** The loop body of [Forget]: [s.forgets[key] = true; delete(s.puts, key)]. *)
Definition forget_delta (s : Session) (key : string) : Session :=
  with_puts (delete key (puts s)) (with_forgets ({[key]} ∪ forgets s) s).

Definition Forget (keys : list string) (s : Session) : Session :=
  with_dirty true
    (foldl forget_delta (with_attributes (maps.Forget (attributes s) keys) s) keys).

Definition Pull (key : string) (def : list value) (s : Session) : value * Session :=
  let s1 := with_dirty true (forget_delta s key) in
  let (v, m) := maps.Pull (attributes s1) key def in
  (v, with_attributes m s1).

Definition Put (key : string) (v : value) (s : Session) : Session :=
  with_dirty true
    (with_forgets (forgets s ∖ {[key]})
       (with_puts (<[key:=v]> (puts s))
          (with_attributes (<[key:=v]> (attributes s)) s))).

Definition Remove (key : string) (s : Session) : value * Session := Pull key [] s.

Definition SetName (n : string) (s : Session) : Session := with_name n s.

Definition isValidID (i : string) : bool := bool_decide (String.length i = 32).

Definition reset (s : Session) : Session :=
  with_flushed false (with_dirty false (with_started false
    (with_manager false (with_driver None (with_codec None
      (with_forgets ∅ (with_puts ∅ (with_attributes ∅
        (with_name "" (with_id "" s)))))))))).

(** ** Computations that can panic or block

    A Go method with a pointer receiver is a function of the state it can
    reach.  A panic leaves the mutations made so far in place; [Blocked] is a
    goroutine parked on a mutex held by someone else. *)

Inductive outcome (A : Type) : Type :=
| Ret (a : A)
| Panic (msg : string)
| Blocked.
Arguments Ret {A} a.
Arguments Panic {A} msg.
Arguments Blocked {A}.

Definition M (S A : Type) : Type := S → outcome A * S.

Definition ret {S A : Type} (a : A) : M S A := fun st => (Ret a, st).

Definition bind {S A B : Type} (c : M S A) (k : A → M S B) : M S B :=
  fun st =>
    match c st with
    | (Ret a, st') => k a st'
    | (Panic msg, st') => (Panic msg, st')
    | (Blocked, st') => (Blocked, st')
    end.

Definition panic {S A : Type} (msg : string) : M S A := fun st => (Panic msg, st).

Definition get {S : Type} : M S S := fun st => (Ret st, st).

Definition modify {S : Type} (f : S → S) : M S unit := fun st => (Ret tt, f st).

(** [defer fin] registered at the head of [body]: [fin] runs when [body]
    returns and also when it panics, and the outcome of [body] stands. *)
Definition defer {S A : Type} (fin : M S unit) (body : M S A) : M S A :=
  fun st =>
    match body st with
    | (Blocked, st') => (Blocked, st')
    | (o, st') =>
        match fin st' with
        | (Ret _, st'') => (o, st'')
        | (Panic msg, st'') => (Panic msg, st'')
        | (Blocked, st'') => (Blocked, st'')
        end
    end.

Declare Scope go_scope.
Delimit Scope go_scope with go.
Notation "x <- c ;; k" := (bind c (fun x => k))
  (at level 100, c at next level, right associativity) : go_scope.
Notation "c ;;; k" := (bind c (fun _ => k))
  (at level 100, right associativity) : go_scope.

(** The type assertion [v.([]any)]. *)
Definition assertSlice {S : Type} (v : value) : M S (list value) :=
  match v with
  | VSlice l => ret l
  | _ => panic "interface conversion: interface {} is not []interface {}"
  end.

(** *** Flash data: methods on the session alone *)

Local Open Scope go_scope.

Definition flashSlice (key : string) : M Session (list value) :=
  s <- get ;; assertSlice (Get s key [VSlice []]).

Definition removeFromOldFlashData (keys : list string) : M Session unit :=
  old <- flashSlice "_flash.old" ;;
  let old := foldl (fun old key =>
                      slices.DeleteFunc old
                        (fun i => bool_decide (cast.ToString i = key))) old keys in
  modify (Put "_flash.old" (VSlice old)).

Definition mergeNewFlashes (keys : list string) : M Session unit :=
  values <- flashSlice "_flash.new" ;;
  let values := foldl (fun values key =>
                         if slices.Contains values key then values
                         else (values ++ [VStr key])%list) values keys in
  modify (Put "_flash.new" (VSlice values)).

Definition Flash (key : string) (v : value) : M Session unit :=
  modify (Put key v) ;;;
  old <- flashSlice "_flash.new" ;;
  modify (Put "_flash.new" (VSlice (old ++ [VStr key])%list)) ;;;
  removeFromOldFlashData [key].

Definition Now (key : string) (v : value) : M Session unit :=
  modify (Put key v) ;;;
  old <- flashSlice "_flash.old" ;;
  modify (Put "_flash.old" (VSlice (old ++ [VStr key])%list)).

Definition Keep (keys : list string) : M Session unit :=
  mergeNewFlashes keys ;;; removeFromOldFlashData keys.

Definition Reflash : M Session unit :=
  old <- flashSlice "_flash.old" ;;
  mergeNewFlashes (cast.ToStringSlice old) ;;;
  modify (Put "_flash.old" (VSlice [])).

Definition ageFlashData : M Session unit :=
  old <- flashSlice "_flash.old" ;;
  let old := cast.ToStringSlice old in
  newFlash <- flashSlice "_flash.new" ;;
  if bool_decide (length old = 0%nat) && bool_decide (length newFlash = 0%nat)
  then ret tt
  else
    (if bool_decide (0 < length old)%nat then modify (Forget old) else ret tt) ;;;
    modify (Put "_flash.old" (VSlice newFlash)) ;;;
    modify (Put "_flash.new" (VSlice [])).

Local Close Scope go_scope.

(** ** The manager and the process state *)

(** Calls made on the collaborators, in program order. *)
Inductive event : Type :=
| EvLock (sid : string)
| EvUnlock (sid : string)
| EvRead (handler sid : string)
| EvWrite (handler sid data : string)
| EvDestroy (handler sid : string).

Section Process.

Context {D : Type} `{!driver.Driver D}.

(** [sessionLocks] maps a session ID to its mutex: [true] when held. *)
Record Manager : Type := mkManager {
  Codec : securecookie.Codec;
  Lifetime : Z;
  GcInterval : Z;
  drivers : gmap string D;
  sessionPool : list Session;
  sessionLocks : gmap string bool
}.

Definition with_drivers (v : gmap string D) (m : Manager) : Manager :=
  mkManager (Codec m) (Lifetime m) (GcInterval m) v (sessionPool m) (sessionLocks m).
Definition with_sessionPool (v : list Session) (m : Manager) : Manager :=
  mkManager (Codec m) (Lifetime m) (GcInterval m) (drivers m) v (sessionLocks m).
Definition with_sessionLocks (v : gmap string bool) (m : Manager) : Manager :=
  mkManager (Codec m) (Lifetime m) (GcInterval m) (drivers m) (sessionPool m) v.

(** The receiver [self], the manager, the random source and the trace. *)
Record State : Type := mkState {
  self : Session;
  man : Manager;
  tape : nat → nat;
  cursor : nat;
  trace : list event
}.

Definition with_self (v : Session) (st : State) : State :=
  mkState v (man st) (tape st) (cursor st) (trace st).
Definition with_man (v : Manager) (st : State) : State :=
  mkState (self st) v (tape st) (cursor st) (trace st).
Definition with_cursor (v : nat) (st : State) : State :=
  mkState (self st) (man st) (tape st) v (trace st).
Definition emit (e : event) (st : State) : State :=
  mkState (self st) (man st) (tape st) (cursor st) (trace st ++ [e]).

(** Run a method of the session alone on the receiver. *)
Definition on_self {A : Type} (c : M Session A) : M State A :=
  fun st => let (o, s') := c (self st) in (o, with_self s' st).

Local Open Scope go_scope.

(** *** Manager *)

(** Run a method of the manager alone on the manager of the process. *)
Definition on_man {A : Type} (c : M Manager A) : M State A :=
  fun st => let (o, m') := c (man st) in (o, with_man m' st).

(** [time.Duration(n) * time.Minute]: a count of nanoseconds in an [int64],
    which wraps around. *)
Definition wrap64 (z : Z) : Z := ((z + 2 ^ 63) mod 2 ^ 64 - 2 ^ 63)%Z.

Definition minutes (n : Z) : Z := wrap64 (n * 60000000000).

(** [time.NewTicker] panics on an interval that is not positive.  The sweep
    goroutine that [startGcTimer] starts once the ticker exists runs beside
    the request path, holds no session lock, and is left out. *)
Definition startGcTimer : M Manager unit :=
  fun m =>
    if bool_decide (minutes (GcInterval m) ≤ 0)%Z
    then (Panic "non-positive interval for NewTicker", m)
    else (Ret tt, m).

(** [handler] is [None] for a nil handler.  The code only ever indexes
    [drivers] and compares the entry with nil, so that an entry holding nil
    reads as a missing one: [drivers] holds the entries that are not nil, and
    storing nil under a name removes the name. *)
Definition Extend (drv : string) (handler : option D) : M Manager (option error) :=
  m <- get ;;
  match drivers m !! drv with
  | Some _ => ret (Some ("driver [" ++ drv ++ "] already exists"))
  | None =>
      modify (fun m => with_drivers
                         (match handler with
                          | Some d => <[drv:=d]> (drivers m)
                          | None => delete drv (drivers m)
                          end) m) ;;;
      startGcTimer ;;;
      ret None
  end.

(** [defaultDriver] is the file driver that [driver.NewFile] returns. *)
Definition createDefaultDriver (defaultDriver : D) : M Manager (option error) :=
  Extend "default" (Some defaultDriver).

(** [newCodec] is the result of [securecookie.New]; [defaultDriver] is
    [None] when [DisableDefaultDriver] is set, else the file driver that
    [createDefaultDriver] registers under the name default. *)
Definition NewManager (newCodec : res securecookie.Codec) (lifetime gcInterval : Z)
    (defaultDriver : option D) : outcome (res Manager) :=
  match newCodec with
  | Err e => Ret (Err e)
  | Ok c =>
      let m := mkManager c lifetime gcInterval ∅ [] ∅ in
      match defaultDriver with
      | None => Ret (Ok m)
      | Some d =>
          match createDefaultDriver d m with
          | (Ret None, m') => Ret (Ok m')
          | (Ret (Some e), _) => Ret (Err e)
          | (Panic msg, _) => Panic msg
          | (Blocked, _) => Blocked
          end
      end
  end.

Definition AcquireSession : M State Session :=
  st <- get ;;
  match sessionPool (man st) with
  | [] => ret pristine
  | s :: pool => modify (fun st => with_man (with_sessionPool pool (man st)) st) ;;; ret s
  end.

Definition ReleaseSession (session : Session) : M State unit :=
  modify (fun st => with_man (with_sessionPool (reset session :: sessionPool (man st)) (man st)) st).

(** [LoadOrStore] creates the entry when it is absent; [Lock] parks the
    caller while the mutex is held. *)
Definition LockSession (sid : string) : M State unit :=
  fun st =>
    match sessionLocks (man st) !! sid with
    | Some true => (Blocked, st)
    | _ => (Ret tt, emit (EvLock sid)
                      (with_man (with_sessionLocks (<[sid:=true]> (sessionLocks (man st))) (man st)) st))
    end.

(** Unlocking a mutex that is not held is a fatal error of the Go runtime,
    modelled as a panic. *)
Definition UnlockSession (sid : string) : M State unit :=
  fun st =>
    match sessionLocks (man st) !! sid with
    | Some true => (Ret tt, emit (EvUnlock sid)
                      (with_man (with_sessionLocks (<[sid:=false]> (sessionLocks (man st))) (man st)) st))
    | Some false => (Panic "sync: unlock of unlocked mutex", st)
    | None => (Ret tt, st)
    end.

(** The manager's method [driver]: the handler's registry key stands for the
    handler. *)
Definition Manager_driver (m : Manager) (name : list string) : res string :=
  let driverName := match name with n :: _ => n | [] => "default" end in
  if bool_decide (driverName = "") then Err "driver is not set"
  else match drivers m !! driverName with
       | None => Err ("driver [" ++ driverName ++ "] not supported")
       | Some _ => Ok driverName
       end.

(** *** Session methods that reach the manager, the driver or the random source *)

Definition alphabet : string :=
  "0123456789ABCDEFGHIJKLMNOPQRSTUVWXYZabcdefghijklmnopqrstuvwxyz".

Definition generateSessionID : M State string :=
  fun st =>
    let (s, c) := nanoid.MustCustomASCII alphabet 32 (tape st) (cursor st) in
    (Ret s, with_cursor c st).

Definition BuildSession (name : string) (drv : list string) : M State (res Session) :=
  st <- get ;;
  match Manager_driver (man st) drv with
  | Err e => ret (Err e)
  | Ok handler =>
      session <- AcquireSession ;;
      sid <- generateSessionID ;;
      st <- get ;;
      ret (Ok (with_manager true (with_driver (Some handler)
                 (with_codec (Some (Codec (man st)))
                    (with_name name (with_id sid session))))))
  end.

Definition SetID (i : string) : M State unit :=
  if isValidID i then modify (fun st => with_self (with_id i (self st)) st)
  else
    sid <- generateSessionID ;;
    modify (fun st => with_self (with_id sid (self st)) st).

Definition nil_deref {A : Type} : M State A :=
  panic "invalid memory address or nil pointer dereference".

(** [s.driver.Read(id)], [s.driver.Write(id, data)], [s.driver.Destroy(id)]. *)
Definition driver_Read (sid : string) : M State (res string) :=
  st <- get ;;
  match driver (self st) with
  | None => nil_deref
  | Some h =>
      match drivers (man st) !! h with
      | None => nil_deref
      | Some d => modify (emit (EvRead h sid)) ;;; ret (driver.Read d sid)
      end
  end.

Definition driver_Write (sid data : string) : M State (option error) :=
  st <- get ;;
  match driver (self st) with
  | None => nil_deref
  | Some h =>
      match drivers (man st) !! h with
      | None => nil_deref
      | Some d =>
          let (err, d') := driver.Write d sid data in
          modify (fun st => emit (EvWrite h sid data)
                    (with_man (with_drivers (<[h:=d']> (drivers (man st))) (man st)) st)) ;;;
          ret err
      end
  end.

Definition driver_Destroy (sid : string) : M State (option error) :=
  st <- get ;;
  match driver (self st) with
  | None => nil_deref
  | Some h =>
      match drivers (man st) !! h with
      | None => nil_deref
      | Some d =>
          let (err, d') := driver.Destroy d sid in
          modify (fun st => emit (EvDestroy h sid)
                    (with_man (with_drivers (<[h:=d']> (drivers (man st))) (man st)) st)) ;;;
          ret err
      end
  end.

Definition readFromHandler : M State (option (gmap string value)) :=
  st <- get ;;
  r <- driver_Read (GetID (self st)) ;;
  match r with
  | Err _ => ret None
  | Ok blob =>
      match codec (self st) with
      | None => nil_deref
      | Some c =>
          match securecookie.Decode c (GetName (self st)) blob with
          | Err _ => ret None
          | Ok data => ret (Some data)
          end
      end
  end.

Definition loadSession : M State unit :=
  data <- readFromHandler ;;
  match data with
  | Some data =>
      modify (fun st => with_self (with_attributes (stdmaps.Copy (attributes (self st)) data) (self st)) st)
  | None => ret tt
  end.

Definition Start : M State bool :=
  loadSession ;;;
  modify (fun st => with_self (with_started true (self st)) st) ;;;
  st <- get ;;
  ret (started (self st)).

Definition migrate (destroy : list bool) : M State (option error) :=
  let shouldDestroy := match destroy with b :: _ => b | [] => false end in
  err <- (if shouldDestroy
          then (st <- get ;; driver_Destroy (GetID (self st)))
          else ret None) ;;
  match err with
  | Some e => ret (Some e)
  | None =>
      sid <- generateSessionID ;;
      modify (fun st => with_self (with_flushed true (with_dirty true (with_id sid (self st)))) st) ;;;
      ret None
  end.

Definition Regenerate (destroy : list bool) : M State (option error) := migrate destroy.

Definition Invalidate : M State (option error) :=
  on_self (modify Flush) ;;; migrate [true].

(** The merge of [Save]: two loops over the deltas. *)
Definition merge (latest : gmap string value) (s : Session) : gmap string value :=
  let latest := set_fold (fun key acc => delete key acc) latest (forgets s) in
  map_fold (fun key v acc => <[key:=v]> acc) latest (puts s).

Definition Save : M State (option error) :=
  on_self ageFlashData ;;;
  st <- get ;;
  if negb (dirty (self st)) then ret None
  else
    (if manager (self st) then LockSession (GetID (self st)) else ret tt) ;;;
    defer (if manager (self st) then UnlockSession (GetID (self st)) else ret tt)
      (final <- (if flushed (self st) then ret (attributes (self st))
                 else
                   latest <- readFromHandler ;;
                   ret (merge (default ∅ latest) (self st))) ;;
       match codec (self st) with
       | None => nil_deref
       | Some c =>
           match securecookie.Encode c (GetName (self st)) final with
           | Err e => ret (Some e)
           | Ok data =>
               err <- driver_Write (GetID (self st)) data ;;
               match err with
               | Some e => ret (Some e)
               | None =>
                   modify (fun st => with_self (with_started false (with_dirty false (self st))) st) ;;;
                   ret None
               end
           end
       end).

Local Close Scope go_scope.

End Process.

(** ** Test doubles

    The in-memory driver of the repository's tests, and a codec that prints
    the attribute set under the session name and decodes by looking the blob
    up among the sets it knows, failing closed on anything else. *)

Record memoryDriver : Type := mkMemoryDriver {
  data : gmap string string;
  failWrite : bool
}.

Definition newMemoryDriver (failWrite : bool) : memoryDriver := mkMemoryDriver ∅ failWrite.

#[export] Instance memoryDriver_Driver : driver.Driver memoryDriver := {|
  driver.Read d sid :=
    match data d !! sid with
    | Some v => Ok v
    | None => Err ("session [" ++ sid ++ "] not found")
    end;
  driver.Write d sid blob :=
    if failWrite d then (Some "write failed", d)
    else (None, mkMemoryDriver (<[sid:=blob]> (data d)) (failWrite d));
  driver.Destroy d sid := (None, mkMemoryDriver (delete sid (data d)) (failWrite d));
  driver.Gc d _ := (None, d)
|}.

Fixpoint render (v : value) : string :=
  match v with
  | VNil => "nil"
  | VBool true => "true"
  | VBool false => "false"
  | VInt n => pretty n
  | VStr s => "'" ++ s ++ "'"
  | VSlice l => "[" ++ (fix go (l : list value) : string :=
                          match l with
                          | [] => ""
                          | x :: l' => render x ++ "," ++ go l'
                          end) l ++ "]"
  end.

Definition renderMap (m : gmap string value) : string :=
  foldr (fun kv acc => kv.1 ++ "=" ++ render kv.2 ++ ";" ++ acc) "" (map_to_list m).

Definition printCodec (known : list (gmap string value)) : securecookie.Codec := {|
  securecookie.Encode name m := Ok (name ++ "|" ++ renderMap m);
  securecookie.Decode name blob :=
    match List.find (fun m => bool_decide (name ++ "|" ++ renderMap m = blob)) known with
    | Some m => Ok m
    | None => Err "securecookie: the value is not valid"
    end
|}.

(** * The vocabulary of the properties *)

(** ** Sessions *)

(** The merge as the specification words it: drop the forgotten keys of the
    re-read state, then lay the buffered puts over it. *)
Definition merged (latest puts : gmap string value) (forgets : gset string)
  : gmap string value :=
  puts ∪ filter (fun kv => kv.1 ∉ forgets) latest.

(** No key is buffered both as a put and as a forget. *)
Definition deltas_disjoint (s : Session) : Prop :=
  ∀ key : string, is_Some (puts s !! key) → key ∉ forgets s.

(** A property of the receiver that every step of a computation keeps holds
    when it ends, whether it returns or panics. *)
Definition preserves {A : Type} (P : Session → Prop) (c : M Session A) : Prop :=
  ∀ s, P s → P (c s).2.

(** The mutators of a session, as a request may call them in any order. *)
Inductive op : Type :=
| OpPut (key : string) (v : value)
| OpForget (keys : list string)
| OpPull (key : string) (def : list value)
| OpFlush
| OpFlash (key : string) (v : value)
| OpNow (key : string) (v : value)
| OpKeep (keys : list string)
| OpReflash
| OpAge.

Definition exec (o : op) : M Session unit :=
  match o with
  | OpPut key v => modify (Put key v)
  | OpForget keys => modify (Forget keys)
  | OpPull key def => modify (fun s => (Pull key def s).2)
  | OpFlush => modify Flush
  | OpFlash key v => Flash key v
  | OpNow key v => Now key v
  | OpKeep keys => Keep keys
  | OpReflash => Reflash
  | OpAge => ageFlashData
  end.

Fixpoint run (ops : list op) : M Session unit :=
  match ops with
  | [] => ret tt
  | o :: ops' => bind (exec o) (fun _ => run ops')
  end.

(** The data model types the two bookkeeping keys: each is absent or holds a
    sequence. *)
Definition slice_or_absent (s : Session) (key : string) : Prop :=
  match attributes s !! key with
  | None | Some (VSlice _) => True
  | Some _ => False
  end.

Definition flash_wf (s : Session) : Prop :=
  slice_or_absent s "_flash.old" ∧ slice_or_absent s "_flash.new".

(** The sequence a bookkeeping key stands for. *)
Definition flash_seq (s : Session) (key : string) : list value :=
  match attributes s !! key with
  | Some (VSlice l) => l
  | _ => []
  end.

(** The session after a round of aging that has something to age. *)
Definition aged (s : Session) : Session :=
  Put "_flash.new" (VSlice [])
    (Put "_flash.old" (VSlice (flash_seq s "_flash.new"))
       (Forget (cast.ToStringSlice (flash_seq s "_flash.old")) s)).

Definition flash_idle (s : Session) : Prop :=
  flash_seq s "_flash.old" = [] ∧ flash_seq s "_flash.new" = [].

#[export] Instance flash_idle_dec (s : Session) : Decision (flash_idle s).
Proof. unfold flash_idle. apply _. Defined.

(** Aging touches the attributes, the deltas and the dirty flag only. *)
Definition after_aging (s : Session) : Session :=
  if decide (flash_idle s) then s else aged s.

(** ** Sessions in a process *)

Section Vocabulary.

Context {D : Type} `{!driver.Driver D}.

Implicit Types (st : State (D:=D)) (m : Manager (D:=D)) (s : Session).

(** The session is bound to a codec and to a registered handler. *)
Definition bound st (c : securecookie.Codec) (h : string) (d : D) : Prop :=
  codec (self st) = Some c ∧ driver (self st) = Some h ∧ drivers (man st) !! h = Some d.

(** Nobody else holds the mutex of the session's ID. *)
Definition lock_free st : Prop :=
  manager (self st) = true → sessionLocks (man st) !! id (self st) ≠ Some true.

Definition locked (sid : string) st : State :=
  emit (EvLock sid)
    (with_man (with_sessionLocks (<[sid:=true]> (sessionLocks (man st))) (man st)) st).

Definition unlocked (sid : string) st : State :=
  emit (EvUnlock sid)
    (with_man (with_sessionLocks (<[sid:=false]> (sessionLocks (man st))) (man st)) st).

Definition wrote (h sid blob : string) (d' : D) st : State :=
  emit (EvWrite h sid blob)
    (with_man (with_drivers (<[h:=d']> (drivers (man st))) (man st)) st).

(** The persisted state as a load sees it: empty when the read or the
    decode fails. *)
Definition latest_of (c : securecookie.Codec) (n : string) (r : res string)
  : gmap string value :=
  match r with
  | Err _ => ∅
  | Ok blob => match securecookie.Decode c n blob with
               | Err _ => ∅
               | Ok m => m
               end
  end.

(** The attribute set [Save] encodes. *)
Definition save_final (c : securecookie.Codec) (d : D) s : gmap string value :=
  if flushed s then attributes s
  else merge (latest_of c (name s) (driver.Read d (id s))) s.

(** The run of [Save] on a session that is dirty once its flash data have
    aged. *)
Definition Save_result st (c : securecookie.Codec) (h : string) (d : D)
  : outcome (option error) * State :=
  let s1 := after_aging (self st) in
  let st1 := with_self s1 st in
  let st2 := if manager s1 then locked (id s1) st1 else st1 in
  let st3 := if flushed s1 then st2 else emit (EvRead h (id s1)) st2 in
  let r :=
    match securecookie.Encode c (name s1) (save_final c d s1) with
    | Err e => (Some e, st3)
    | Ok blob =>
        let w := driver.Write d (id s1) blob in
        let st' := wrote h (id s1) blob w.2 st3 in
        match w.1 with
        | Some e => (Some e, st')
        | None => (None, with_self (with_started false (with_dirty false s1)) st')
        end
    end in
  (Ret r.1, if manager s1 then unlocked (id s1) r.2 else r.2).

Definition lock_events s : list event :=
  if manager s then [EvLock (id s)] else [].

Definition unlock_events s : list event :=
  if manager s then [EvUnlock (id s)] else [].

(** Flush, Regenerate and Invalidate leave the session flushed and dirty,
    and the mutators keep it so. *)
Definition overwriting s : Prop := flushed s = true ∧ dirty s = true.

(** The load fails: the record is absent, or its blob does not decode. *)
Definition load_fails (c : securecookie.Codec) (d : D) s : Prop :=
  match driver.Read d (id s) with
  | Err _ => True
  | Ok blob => match securecookie.Decode c (name s) blob with
               | Err _ => True
               | Ok _ => False
               end
  end.

Definition pool_pristine m : Prop := Forall (fun s => s = pristine) (sessionPool m).

End Vocabulary.

(** ** Concrete sessions and backends *)

Definition flash_session : Session :=
  with_attributes
    (<["_flash.old" := VSlice [VStr "x"]]>
       (<["_flash.new" := VSlice [VStr "y"]]>
          (<["x" := VInt 1]> (<["y" := VInt 2]> ∅)))) pristine.

Definition demo_id : string := "12345678901234567890123456789012".

Definition seed_attrs : gmap string value := <["seed" := VInt 1]> ∅.

(** The second request of a flash cycle: [y] was flashed by the request
    before and is due to expire. *)
Definition flash_attrs : gmap string value :=
  <["y" := VInt 2]> (<["_flash.old" := VSlice [VStr "y"]]> (<["_flash.new" := VSlice []]> ∅)).

Definition demo_codec : securecookie.Codec := printCodec [seed_attrs; flash_attrs].

Definition demo_manager (d : memoryDriver) : Manager :=
  mkManager demo_codec 10 10 (<["mock" := d]> ∅) [] ∅.

(** A session as [BuildSession], [SetID] and [Start] leave it. *)
Definition demo_session (attrs : gmap string value) : Session :=
  mkSession demo_id "session" attrs (Some demo_codec) (Some "mock") true
            true false false ∅ ∅.

Definition demo_state (s : Session) (d : memoryDriver) : State :=
  mkState s (demo_manager d) (fun n => n * 7 + 3) 0 [].

Definition backend_seed : memoryDriver :=
  mkMemoryDriver (<[demo_id := "session|seed=1;"]> ∅) false.

Definition backend_failing : memoryDriver := mkMemoryDriver ∅ true.

(** A request put one key; the backend holds the seed. *)
Definition merge_state : State :=
  demo_state (Put "k" (VStr "v") (demo_session seed_attrs)) backend_seed.

(** A request flushed the session and put one key. *)
Definition flushed_state : State :=
  demo_state (Put "a" (VInt 1) (Flush (demo_session seed_attrs))) backend_seed.

(** A request that changed nothing, with no flash data. *)
Definition clean_state : State := demo_state (demo_session seed_attrs) backend_seed.

(** A request that changed nothing, but loaded flash data that is due to
    age. *)
Definition pending_state : State :=
  demo_state (demo_session flash_attrs)
    (mkMemoryDriver (<[demo_id := "session|_flash.old=['y',];_flash.new=[];y=2;"]> ∅) false).

(** The write fails on a request that put one key, with no flash data. *)
Definition failing_state : State :=
  demo_state (Put "k" (VStr "v") (demo_session seed_attrs)) backend_failing.

(** The write fails on a request that put one key and holds flash data due
    to age. *)
Definition failing_flash_state : State :=
  demo_state (Put "k" (VStr "v") (demo_session flash_attrs)) backend_failing.

(** A fresh session, nothing persisted under its ID. *)
Definition absent_state : State := demo_state (demo_session ∅) (newMemoryDriver false).

(** A key was put before [Start]; nothing is persisted under the ID. *)
Definition put_before_start : State :=
  demo_state (Put "a" (VInt 1) (demo_session ∅)) (newMemoryDriver false).

(** A manager with one driver and an empty pool. *)
Definition fresh_state : State := demo_state pristine (newMemoryDriver false).

(** * The vocabulary of the further properties *)

(** ** Flash data, operation by operation *)

(** The two bookkeeping keys. *)
Definition reserved (key : string) : Prop := key = "_flash.old" ∨ key = "_flash.new".

(** The loop of [removeFromOldFlashData] and the loop of [mergeNewFlashes]. *)
Definition without_keys (keys : list string) (old : list value) : list value :=
  foldl (fun old key =>
           slices.DeleteFunc old (fun i => bool_decide (cast.ToString i = key))) old keys.

Definition with_keys (keys : list string) (values : list value) : list value :=
  foldl (fun values key =>
           if slices.Contains values key then values
           else (values ++ [VStr key])%list) values keys.

(** The session after each flash operation, when it returns. *)
Definition old_pruned (keys : list string) (s : Session) : Session :=
  Put "_flash.old" (VSlice (without_keys keys (flash_seq s "_flash.old"))) s.

Definition new_merged (keys : list string) (s : Session) : Session :=
  Put "_flash.new" (VSlice (with_keys keys (flash_seq s "_flash.new"))) s.

Definition flashed (key : string) (v : value) (s : Session) : Session :=
  let s1 := Put key v s in
  old_pruned [key]
    (Put "_flash.new" (VSlice (flash_seq s1 "_flash.new" ++ [VStr key])%list) s1).

Definition nowed (key : string) (v : value) (s : Session) : Session :=
  let s1 := Put key v s in
  Put "_flash.old" (VSlice (flash_seq s1 "_flash.old" ++ [VStr key])%list) s1.

Definition kept (keys : list string) (s : Session) : Session :=
  old_pruned keys (new_merged keys s).

Definition reflashed (s : Session) : Session :=
  Put "_flash.old" (VSlice [])
    (new_merged (cast.ToStringSlice (flash_seq s "_flash.old")) s).

(** A mutator that does not write one of the bookkeeping keys directly. *)
Definition tame (o : op) : Prop :=
  match o with
  | OpPut key _ | OpFlash key _ | OpNow key _ => ¬ reserved key
  | _ => True
  end.

(** A session that holds a string where the new flash keys belong. *)
Definition ill_typed_state : State :=
  demo_state (Put "_flash.new" (VStr "oops") (demo_session ∅)) backend_seed.

(** A session just built for the ID of the seed, before [Start]. *)
Definition unstarted_state : State :=
  demo_state (with_started false (demo_session ∅)) backend_seed.

(** Two requests on the ID of the seed, each putting a key of its own. *)
Definition merge_codec : securecookie.Codec :=
  printCodec [seed_attrs; <["k0" := VInt 0]> seed_attrs].

Definition worker (key : string) (n : Z) : Session :=
  Put key (VInt n)
    (mkSession demo_id "session" seed_attrs (Some merge_codec) (Some "mock") true
               true false false ∅ ∅).

Definition workers_state : State :=
  mkState (worker "k0" 0)
    (mkManager merge_codec 10 10 (<["mock" := backend_seed]> ∅) [] ∅)
    (fun n => n * 7 + 3) 0 [].

(** A request put one key on a session loaded with flash data that is due
    to age; the backend holds what was loaded. *)
Definition pending_put_state : State :=
  demo_state (Put "k" (VStr "v") (demo_session flash_attrs))
    (mkMemoryDriver (<[demo_id := "session|_flash.old=['y',];_flash.new=[];y=2;"]> ∅) false).

(** A session that was flushed, before its save; and the same session as
    that save leaves it, another request having written the seed since. *)
Definition flushed_first_state : State :=
  demo_state (Flush (demo_session seed_attrs)) (newMemoryDriver false).

Definition flushed_saved_state : State :=
  demo_state (with_started false (with_dirty false (Flush (demo_session seed_attrs))))
    backend_seed.

(** A request flushed the session, then stored a key for this request
    only. *)
Definition flushed_now_state : State :=
  demo_state (Now "k" (VStr "v") (Flush (demo_session seed_attrs))).2 backend_seed.

(** The session of the request after: built for the same ID, not started. *)
Definition next_request : Session :=
  mkSession demo_id "session" ∅ (Some merge_codec) (Some "mock") true
            false false false ∅ ∅.

(** ** The buffering response writer of the middleware

    [responseWriter] wraps the [http.ResponseWriter] of the server.  The
    wrapped writer is a collaborator: it is modelled by the calls it
    receives, in order, and by whether it implements [http.Flusher]. *)
Module middleware.

Inductive call : Type :=
| CallWriteHeader (code : Z)
| CallWrite (data : list Byte.byte)
| CallFlush.

Record responseWriter : Type := mkResponseWriter {
  inner : list call;
  flusher : bool;
  body : list Byte.byte;
  statusCode : Z;
  written : bool
}.

Definition send (c : call) (w : responseWriter) : responseWriter :=
  mkResponseWriter (inner w ++ [c])%list (flusher w)
                   (body w) (statusCode w) (written w).



(** [bytes.Buffer.Write] appends and returns the length and a nil error. *)
Definition Write (data : list Byte.byte) (w : responseWriter)
  : (nat * option error) * responseWriter :=
  ((length data, None),
   mkResponseWriter (inner w) (flusher w) (body w ++ data)%list
                    (statusCode w) (written w)).

(** [body.Bytes()] reads the buffer and does not drain it. *)
Definition flush (w : responseWriter) : responseWriter :=
  let w := if written w then send (CallWriteHeader (statusCode w)) w else w in
  send (CallWrite (body w)) w.

Definition Flush (w : responseWriter) : responseWriter :=
  let w := flush w in
  if flusher w then send CallFlush w else w.






End middleware.

(** * Properties *)

(** ** Maps and loops *)

Lemma maps_Forget_lookup (m : gmap string value) (keys : list string) (k : string) :
  maps.Forget m keys !! k = if decide (k ∈ keys) then None else m !! k.
Proof.
  unfold maps.Forget. revert m.
  induction keys as [|key keys IH]; intros m; simpl.
  - destruct (decide (k ∈ [])) as [Hin|_]; [set_solver | done].
  - rewrite IH. destruct (decide (key = k)) as [->|Hne].
    + rewrite lookup_delete_eq, (decide_True (P := k ∈ k :: keys)) by set_solver.
      by destruct (decide (k ∈ keys)).
    + rewrite lookup_delete_ne by done.
      destruct (decide (k ∈ keys)).
      * by rewrite decide_True by set_solver.
      * by rewrite decide_False by set_solver.
Qed.

Lemma Copy_lookup (dst src : gmap string value) (k : string) :
  stdmaps.Copy dst src !! k = match src !! k with Some v => Some v | None => dst !! k end.
Proof.
  unfold stdmaps.Copy. revert k.
  apply (map_fold_weak_ind
           (fun r m => ∀ k, r !! k = match m !! k with Some v => Some v | None => dst !! k end)).
  - intros k. by rewrite lookup_empty.
  - intros i x m r Hi IH k. destruct (decide (i = k)) as [->|Hne].
    + by rewrite !lookup_insert_eq.
    + rewrite !lookup_insert_ne by done. apply IH.
Qed.

Lemma Copy_empty (dst : gmap string value) : stdmaps.Copy dst ∅ = dst.
Proof. apply map_eq. intros k. by rewrite Copy_lookup, lookup_empty. Qed.

Lemma merged_lookup latest ps (fs : gset string) (k : string) :
  merged latest ps fs !! k =
    match ps !! k with
    | Some v => Some v
    | None => if decide (k ∈ fs) then None else latest !! k
    end.
Proof.
  unfold merged. rewrite lookup_union.
  destruct (ps !! k) as [v|] eqn:Hp.
  - by destruct (filter _ latest !! k).
  - rewrite (left_id_L None _). case_decide as Hin.
    + apply map_lookup_filter_None. right. intros x _ Hn. by apply Hn.
    + destruct (latest !! k) as [x|] eqn:Hl.
      * apply map_lookup_filter_Some. done.
      * apply map_lookup_filter_None. by left.
Qed.

Lemma merge_lookup (latest : gmap string value) (s : Session) (k : string) :
  merge latest s !! k =
    match puts s !! k with
    | Some v => Some v
    | None => if decide (k ∈ forgets s) then None else latest !! k
    end.
Proof.
  unfold merge.
  assert (Hdel : ∀ k, set_fold (fun key acc => delete key acc) latest (forgets s) !! k
                      = if decide (k ∈ forgets s) then None else latest !! k).
  { generalize (forgets s).
    apply (set_fold_ind_L
             (fun (r : gmap string value) (X : gset string) =>
                ∀ k, r !! k = if decide (k ∈ X) then None else latest !! k)).
    - intros k'. case_decide; [set_solver | done].
    - intros x X r Hx IH k'. destruct (decide (x = k')) as [->|Hne].
      + rewrite lookup_delete_eq. case_decide; [done | set_solver].
      + rewrite lookup_delete_ne by done. rewrite IH.
        repeat case_decide; try done; set_solver. }
  revert k.
  apply (map_fold_weak_ind
           (fun r m => ∀ k, r !! k = match m !! k with
                                     | Some v => Some v
                                     | None => if decide (k ∈ forgets s) then None
                                               else latest !! k
                                     end)).
  - intros k. rewrite lookup_empty. apply Hdel.
  - intros i x m r Hi IH k. destruct (decide (i = k)) as [->|Hne].
    + by rewrite !lookup_insert_eq.
    + rewrite !lookup_insert_ne by done. apply IH.
Qed.

(** The two loops of [Save] compute the merge of the specification. *)
Lemma merge_merged (latest : gmap string value) (s : Session) :
  merge latest s = merged latest (puts s) (forgets s).
Proof. apply map_eq. intros k. by rewrite merge_lookup, merged_lookup. Qed.

(** ** The deltas of a request *)

Lemma foldl_forget_delta (keys : list string) (s : Session) :
  foldl forget_delta s keys =
    with_puts (foldl (fun m key => delete key m) (puts s) keys)
      (with_forgets (list_to_set keys ∪ forgets s) s).
Proof.
  revert s. induction keys as [|key keys IH]; intros s; simpl.
  - destruct s; unfold with_puts, with_forgets; simpl. f_equal. set_solver.
  - rewrite IH. unfold with_puts, with_forgets, forget_delta; simpl.
    f_equal. set_solver.
Qed.

Lemma foldl_delete_lookup (m : gmap string value) (keys : list string) (k : string) :
  foldl (fun m key => delete key m) m keys !! k = if decide (k ∈ keys) then None else m !! k.
Proof. apply maps_Forget_lookup. Qed.

Lemma Forget_attributes keys s : attributes (Forget keys s) = maps.Forget (attributes s) keys.
Proof. unfold Forget. by rewrite foldl_forget_delta. Qed.

Lemma Forget_forgets keys s : forgets (Forget keys s) = list_to_set keys ∪ forgets s.
Proof. unfold Forget. by rewrite foldl_forget_delta. Qed.

Lemma Forget_puts keys s (k : string) :
  puts (Forget keys s) !! k = if decide (k ∈ keys) then None else puts s !! k.
Proof. unfold Forget. rewrite foldl_forget_delta. simpl. apply foldl_delete_lookup. Qed.

Lemma Forget_dirty keys s : dirty (Forget keys s) = true.
Proof. done. Qed.

Lemma deltas_disjoint_pristine : deltas_disjoint pristine.
Proof. intros key [v Hv]. cbn in Hv. by rewrite lookup_empty in Hv. Qed.

Lemma Put_disjoint key v s : deltas_disjoint s → deltas_disjoint (Put key v s).
Proof.
  intros Hs k Hk. simpl in *. destruct (decide (key = k)) as [->|Hne].
  - set_solver.
  - rewrite lookup_insert_ne in Hk by done. specialize (Hs k Hk). set_solver.
Qed.

Lemma Forget_disjoint keys s : deltas_disjoint s → deltas_disjoint (Forget keys s).
Proof.
  intros Hs k Hk. rewrite Forget_puts in Hk. rewrite Forget_forgets.
  destruct (decide (k ∈ keys)) as [Hin|Hin]; [by destruct Hk |].
  specialize (Hs k Hk). set_solver.
Qed.

Lemma Pull_puts key def s (k : string) :
  puts (Pull key def s).2 !! k = if decide (k = key) then None else puts s !! k.
Proof.
  unfold Pull. destruct (maps.Pull _ key def) as [v m]. simpl.
  case_decide as Hk; [subst; apply lookup_delete_eq | by rewrite lookup_delete_ne].
Qed.

Lemma Pull_forgets key def s : forgets (Pull key def s).2 = {[key]} ∪ forgets s.
Proof. unfold Pull. by destruct (maps.Pull _ key def). Qed.

Lemma Pull_disjoint key def s : deltas_disjoint s → deltas_disjoint (Pull key def s).2.
Proof.
  intros Hs k Hk. rewrite Pull_puts in Hk. rewrite Pull_forgets.
  case_decide; [by destruct Hk |]. specialize (Hs k Hk). set_solver.
Qed.

Lemma Flush_disjoint s : deltas_disjoint (Flush s).
Proof. intros k [v Hv]. simpl in Hv. by rewrite lookup_empty in Hv. Qed.

Section Preserves.

Variable P : Session → Prop.

Lemma preserves_ret {A} (a : A) : preserves P (ret a).
Proof. by intros s Hs. Qed.

Lemma preserves_panic {A} msg : preserves P (panic (A:=A) msg).
Proof. by intros s Hs. Qed.

Lemma preserves_get : preserves P get.
Proof. by intros s Hs. Qed.

Lemma preserves_modify (f : Session → Session) :
  (∀ s, P s → P (f s)) → preserves P (modify f).
Proof. intros Hf s Hs. by apply Hf. Qed.

Lemma preserves_bind {A B} (c : M Session A) (k : A → M Session B) :
  preserves P c → (∀ a, preserves P (k a)) → preserves P (bind c k).
Proof.
  intros Hc Hk s Hs. unfold bind. specialize (Hc s Hs).
  destruct (c s) as [[a|msg|] s']; simpl in *; [by apply Hk | done | done].
Qed.

Lemma preserves_assertSlice v : preserves P (assertSlice v).
Proof. destruct v; first [apply preserves_panic | apply preserves_ret]. Qed.

Lemma preserves_flashSlice key : preserves P (flashSlice key).
Proof.
  unfold flashSlice.
  apply preserves_bind; [apply preserves_get | intros; apply preserves_assertSlice].
Qed.

Hypothesis P_Put : ∀ key v s, P s → P (Put key v s).
Hypothesis P_Forget : ∀ keys s, P s → P (Forget keys s).

Lemma preserves_removeFromOldFlashData keys : preserves P (removeFromOldFlashData keys).
Proof.
  unfold removeFromOldFlashData.
  apply preserves_bind; [apply preserves_flashSlice |].
  intros old. apply preserves_modify. auto.
Qed.

Lemma preserves_mergeNewFlashes keys : preserves P (mergeNewFlashes keys).
Proof.
  unfold mergeNewFlashes.
  apply preserves_bind; [apply preserves_flashSlice |].
  intros old. apply preserves_modify. auto.
Qed.

Ltac preserves_step :=
  lazymatch goal with
  | |- preserves _ (bind _ _) => apply preserves_bind; [| intros ?]
  | |- preserves _ (modify _) => apply preserves_modify; solve [auto]
  | |- preserves _ (flashSlice _) => apply preserves_flashSlice
  | |- preserves _ (removeFromOldFlashData _) => apply preserves_removeFromOldFlashData
  | |- preserves _ (mergeNewFlashes _) => apply preserves_mergeNewFlashes
  | |- preserves _ (ret _) => apply preserves_ret
  end.

Lemma preserves_Flash key v : preserves P (Flash key v).
Proof. unfold Flash. repeat preserves_step. Qed.

Lemma preserves_Now key v : preserves P (Now key v).
Proof. unfold Now. repeat preserves_step. Qed.

Lemma preserves_Keep keys : preserves P (Keep keys).
Proof. unfold Keep. repeat preserves_step. Qed.

Lemma preserves_Reflash : preserves P Reflash.
Proof. unfold Reflash. repeat preserves_step. Qed.

Lemma preserves_ageFlashData : preserves P ageFlashData.
Proof.
  unfold ageFlashData.
  apply preserves_bind; [apply preserves_flashSlice | intros old].
  apply preserves_bind; [apply preserves_flashSlice | intros newFlash].
  destruct (_ && _); [apply preserves_ret |].
  apply preserves_bind; [destruct (bool_decide _) | intros _]; repeat preserves_step.
Qed.

End Preserves.

Lemma exec_disjoint (o : op) : preserves deltas_disjoint (exec o).
Proof.
  destruct o as [key v|keys|key def| |key v|key v|keys| |]; simpl.
  - apply preserves_modify. intros s. apply Put_disjoint.
  - apply preserves_modify. intros s. apply Forget_disjoint.
  - apply preserves_modify. intros s. apply Pull_disjoint.
  - apply preserves_modify. intros s _. apply Flush_disjoint.
  - apply preserves_Flash. exact Put_disjoint.
  - apply preserves_Now. exact Put_disjoint.
  - apply preserves_Keep. exact Put_disjoint.
  - apply preserves_Reflash. exact Put_disjoint.
  - apply preserves_ageFlashData; [exact Put_disjoint | exact Forget_disjoint].
Qed.

Lemma run_disjoint (ops : list op) : preserves deltas_disjoint (run ops).
Proof.
  induction ops as [|o ops IH]; simpl.
  - apply preserves_ret.
  - apply preserves_bind; [apply exec_disjoint | intros _; apply IH].
Qed.

(** C8. Starting from a session whose deltas do not overlap (as every pooled
    session's do), no sequence of Put, Forget, Pull, Flush and the flash
    operations, completed or cut short by a panic, leaves a key both in
    [puts] and in [forgets]; Put takes its key out of [forgets], Forget and
    Pull take theirs out of [puts]. *)
Theorem deltas_never_overlap (s : Session) (ops : list op) :
  deltas_disjoint s →
  deltas_disjoint (run ops s).2
  ∧ (∀ key v, puts (Put key v s) !! key = Some v ∧ key ∉ forgets (Put key v s))
  ∧ (∀ keys key, key ∈ keys →
       key ∈ forgets (Forget keys s) ∧ puts (Forget keys s) !! key = None)
  ∧ (∀ key def,
       key ∈ forgets (Pull key def s).2 ∧ puts (Pull key def s).2 !! key = None).
Proof.
  intros Hs. split; [by apply run_disjoint |]. split; [|split].
  - intros key v. simpl. split; [apply lookup_insert_eq | set_solver].
  - intros keys key Hin. rewrite Forget_forgets, Forget_puts. split; [set_solver |].
    by rewrite decide_True.
  - intros key def. rewrite Pull_forgets, Pull_puts. split; [set_solver |].
    by rewrite decide_True.
Qed.

Lemma deltas_never_overlap_witness :
  deltas_disjoint pristine
  ∧ deltas_disjoint
      (run [OpPut "a" (VInt 1); OpForget ["a"]; OpFlash "b" (VStr "x");
            OpPut "a" (VInt 2); OpPull "b" []; OpFlush; OpNow "c" VNil] pristine).2.
Proof.
  split; [apply deltas_disjoint_pristine |].
  apply (deltas_never_overlap pristine), deltas_disjoint_pristine.
Defined.

(** ** Flash data *)

Lemma flashSlice_wf (s : Session) (key : string) :
  slice_or_absent s key → flashSlice key s = (Ret (flash_seq s key), s).
Proof.
  unfold slice_or_absent, flashSlice, flash_seq, bind, get, Get, maps.Get.
  destruct (attributes s !! key) as [[]|]; simpl; done.
Qed.

Lemma flash_wf_pristine : flash_wf pristine.
Proof. split; unfold slice_or_absent; cbn; by rewrite lookup_empty. Qed.

Lemma aged_attributes (s : Session) (k : string) :
  attributes (aged s) !! k =
    if decide (k = "_flash.new") then Some (VSlice [])
    else if decide (k = "_flash.old") then Some (VSlice (flash_seq s "_flash.new"))
    else if decide (k ∈ cast.ToStringSlice (flash_seq s "_flash.old")) then None
    else attributes s !! k.
Proof.
  unfold aged. cbn [Put attributes with_attributes with_puts with_forgets with_dirty].
  destruct (decide (k = "_flash.new")) as [->|Hn]; [apply lookup_insert_eq |].
  rewrite lookup_insert_ne by done.
  destruct (decide (k = "_flash.old")) as [->|Ho]; [apply lookup_insert_eq |].
  rewrite lookup_insert_ne by done.
  rewrite Forget_attributes. apply maps_Forget_lookup.
Qed.

Lemma aged_puts (s : Session) (k : string) :
  puts (aged s) !! k =
    if decide (k = "_flash.new") then Some (VSlice [])
    else if decide (k = "_flash.old") then Some (VSlice (flash_seq s "_flash.new"))
    else if decide (k ∈ cast.ToStringSlice (flash_seq s "_flash.old")) then None
    else puts s !! k.
Proof.
  unfold aged. cbn [Put puts with_attributes with_puts with_forgets with_dirty].
  destruct (decide (k = "_flash.new")) as [->|Hn]; [apply lookup_insert_eq |].
  rewrite lookup_insert_ne by done.
  destruct (decide (k = "_flash.old")) as [->|Ho]; [apply lookup_insert_eq |].
  rewrite lookup_insert_ne by done.
  apply Forget_puts.
Qed.

Lemma aged_forgets (s : Session) :
  forgets (aged s) =
    (list_to_set (cast.ToStringSlice (flash_seq s "_flash.old")) ∪ forgets s)
      ∖ {["_flash.old"]} ∖ {["_flash.new"]}.
Proof.
  unfold aged. cbn [Put forgets with_attributes with_puts with_forgets with_dirty].
  by rewrite Forget_forgets.
Qed.

(** What [ageFlashData] computes on a well-typed session. *)
Lemma ageFlashData_eq (s : Session) :
  flash_wf s →
  ageFlashData s = (Ret tt, if decide (flash_idle s) then s else aged s).
Proof.
  intros [Hold Hnew]. unfold ageFlashData, bind.
  rewrite (flashSlice_wf s "_flash.old" Hold), (flashSlice_wf s "_flash.new" Hnew).
  destruct (decide (flash_idle s)) as [[Ho Hn]|Hni].
  - rewrite Ho, Hn. done.
  - unfold flash_idle in Hni. unfold aged, cast.ToStringSlice.
    destruct (flash_seq s "_flash.old") as [|o old];
      destruct (flash_seq s "_flash.new") as [|n new]; simpl.
    + by destruct Hni.
    + unfold ret, modify. simpl. by destruct s.
    + done.
    + done.
Qed.

(** C9. On a session whose bookkeeping keys hold sequences (or are absent),
    [ageFlashData] returns; when both sequences are empty it leaves the
    session as it is, dirty flag included; otherwise it forgets every key of
    the old sequence, then stores the new sequence under the old key, then an
    empty sequence under the new key. *)
Theorem ageFlashData_spec (s : Session) :
  flash_wf s →
  let old := cast.ToStringSlice (flash_seq s "_flash.old") in
  let new := flash_seq s "_flash.new" in
  ∃ s', ageFlashData s = (Ret tt, s')
    ∧ (old = [] ∧ new = [] → s' = s)
    ∧ (¬ (old = [] ∧ new = []) →
         s' = Put "_flash.new" (VSlice []) (Put "_flash.old" (VSlice new) (Forget old s))
         ∧ attributes s' !! "_flash.old" = Some (VSlice new)
         ∧ attributes s' !! "_flash.new" = Some (VSlice [])
         ∧ (∀ key, key ∈ old → key ≠ "_flash.old" → key ≠ "_flash.new" →
              attributes s' !! key = None ∧ key ∈ forgets s' ∧ puts s' !! key = None)
         ∧ (∀ key, key ∉ old → key ≠ "_flash.old" → key ≠ "_flash.new" →
              attributes s' !! key = attributes s !! key)
         ∧ dirty s' = true).
Proof.
  intros Hwf old new. rewrite (ageFlashData_eq s Hwf).
  assert (Hidle : flash_idle s ↔ old = [] ∧ new = []).
  { unfold flash_idle, old, new, cast.ToStringSlice.
    destruct (flash_seq s "_flash.old"); simpl; intuition congruence. }
  eexists. split; [done |]. split.
  - intros H. by rewrite decide_True by by apply Hidle.
  - intros H. rewrite decide_False by (by rewrite Hidle).
    split; [done |]. split; [by rewrite aged_attributes |].
    split; [by rewrite aged_attributes |]. split; [|split; [|done]].
    + intros key Hin Ho Hn.
      rewrite aged_attributes, aged_puts, aged_forgets.
      rewrite !(decide_False (P := key = "_flash.new")) by done.
      rewrite !(decide_False (P := key = "_flash.old")) by done.
      fold old. rewrite !decide_True by done. set_solver.
    + intros key Hin Ho Hn. rewrite aged_attributes.
      rewrite (decide_False (P := key = "_flash.new")) by done.
      rewrite (decide_False (P := key = "_flash.old")) by done.
      fold old. by rewrite decide_False by done.
Qed.

Lemma flash_wf_flash_session : flash_wf flash_session.
Proof. split; vm_compute; exact I. Qed.

Lemma ageFlashData_spec_witness :
  flash_wf flash_session ∧ ∃ s', ageFlashData flash_session = (Ret tt, s').
Proof.
  split; [apply flash_wf_flash_session |].
  destruct (ageFlashData_spec flash_session flash_wf_flash_session) as (s' & Hs' & _).
  exists s'. exact Hs'.
Defined.

Lemma Forget_frame keys s :
  id (Forget keys s) = id s ∧ name (Forget keys s) = name s
  ∧ codec (Forget keys s) = codec s ∧ driver (Forget keys s) = driver s
  ∧ manager (Forget keys s) = manager s ∧ started (Forget keys s) = started s
  ∧ flushed (Forget keys s) = flushed s.
Proof. unfold Forget. rewrite foldl_forget_delta. done. Qed.

Lemma after_aging_frame s :
  id (after_aging s) = id s ∧ name (after_aging s) = name s
  ∧ codec (after_aging s) = codec s ∧ driver (after_aging s) = driver s
  ∧ manager (after_aging s) = manager s ∧ started (after_aging s) = started s
  ∧ flushed (after_aging s) = flushed s.
Proof.
  unfold after_aging. destruct (decide (flash_idle s)); [done |].
  unfold aged. cbn [Put id name codec driver manager started flushed
                    with_attributes with_puts with_forgets with_dirty].
  apply Forget_frame.
Qed.

Lemma after_aging_dirty s : dirty s = true → dirty (after_aging s) = true.
Proof. unfold after_aging. by destruct (decide (flash_idle s)). Qed.

Lemma after_aging_idle s : flash_idle s → after_aging s = s.
Proof. intros H. unfold after_aging. by rewrite decide_True. Qed.

Lemma after_aging_busy s : ¬ flash_idle s → after_aging s = aged s.
Proof. intros H. unfold after_aging. by rewrite decide_False. Qed.

Lemma ageFlashData_run s : flash_wf s → ageFlashData s = (Ret tt, after_aging s).
Proof. apply ageFlashData_eq. Qed.

(** ** Stepping through a computation *)

Lemma bind_run {S A B : Type} (c : M S A) (k : A → M S B) (st st' : S) (a : A) :
  c st = (Ret a, st') → bind c k st = k a st'.
Proof. intros H. unfold bind. by rewrite H. Qed.

Lemma defer_run {S A : Type} (fin : M S unit) (body : M S A) (st st' st'' : S) (a : A) :
  body st = (Ret a, st') → fin st' = (Ret tt, st'') → defer fin body st = (Ret a, st'').
Proof. intros Hb Hf. unfold defer. by rewrite Hb, Hf. Qed.

(** ** Save *)

Section SaveFacts.

Context {D : Type} `{!driver.Driver D}.

Implicit Types (st : State (D:=D)) (s : Session).

Local Open Scope list_scope.

Lemma LockSession_run sid st :
  sessionLocks (man st) !! sid ≠ Some true →
  LockSession sid st = (Ret tt, locked sid st).
Proof.
  intros Hfree. unfold LockSession.
  destruct (sessionLocks (man st) !! sid) as [[]|]; done.
Qed.

Lemma UnlockSession_run sid st :
  sessionLocks (man st) !! sid = Some true →
  UnlockSession sid st = (Ret tt, unlocked sid st).
Proof. intros Hheld. unfold UnlockSession. by rewrite Hheld. Qed.

Lemma readFromHandler_run st c h d :
  bound st c h d →
  readFromHandler st =
    (Ret (match driver.Read d (id (self st)) with
          | Err _ => None
          | Ok blob => match securecookie.Decode c (name (self st)) blob with
                       | Err _ => None
                       | Ok m => Some m
                       end
          end),
     emit (EvRead h (id (self st))) st).
Proof.
  intros (Hc & Hd & Hh). unfold readFromHandler.
  rewrite (bind_run get _ st st st) by done.
  unfold driver_Read, GetID, GetName.
  rewrite (bind_run (bind get _) _ st (emit (EvRead h (id (self st))) st)
             (driver.Read d (id (self st)))).
  2:{ rewrite (bind_run get _ st st st) by done. rewrite Hd, Hh. done. }
  destruct (driver.Read d (id (self st))) as [blob|e]; [|done].
  rewrite Hc. by destruct (securecookie.Decode c (name (self st)) blob).
Qed.

Lemma driver_Write_run st c h d sid blob :
  bound st c h d →
  driver_Write sid blob st =
    (Ret (driver.Write d sid blob).1, wrote h sid blob (driver.Write d sid blob).2 st).
Proof.
  intros (Hc & Hd & Hh). unfold driver_Write.
  rewrite (bind_run get _ st st st) by done.
  rewrite Hd, Hh. by destruct (driver.Write d sid blob).
Qed.

Lemma Save_dirty st c h d :
  flash_wf (self st) → bound st c h d → lock_free st →
  dirty (after_aging (self st)) = true →
  Save st = Save_result st c h d.
Proof.
  intros Hwf (Hc & Hd & Hh) Hfree Hdirty.
  destruct (after_aging_frame (self st)) as (Hid & Hname & Hcodec & Hdrv & Hman & _ & _).
  unfold Save, Save_result.
  set (s1 := after_aging (self st)) in *.
  set (st1 := with_self s1 st).
  rewrite (bind_run (on_self ageFlashData) _ st st1 tt).
  2:{ unfold on_self. rewrite (ageFlashData_run _ Hwf). done. }
  rewrite (bind_run get _ st1 st1 st1) by done.
  cbn [self with_self st1]. rewrite Hdirty. cbn [negb].
  set (st2 := if manager s1 then locked (id s1) st1 else st1).
  assert (Hb2 : bound st2 c h d).
  { unfold st2, bound. destruct (manager s1); cbn; rewrite Hcodec, Hdrv; done. }
  assert (Hself2 : self st2 = s1) by (unfold st2; by destruct (manager s1)).
  rewrite (bind_run _ _ st1 st2 tt).
  2:{ unfold st2, GetID. destruct (manager s1) eqn:Em; [|done].
      apply LockSession_run. rewrite Hid. apply Hfree. by rewrite <- Hman. }
  set (st3 := if flushed s1 then st2 else emit (EvRead h (id s1)) st2).
  assert (Hb3 : bound st3 c h d).
  { unfold st3. by destruct (flushed s1). }
  assert (Hself3 : self st3 = s1) by (unfold st3; by destruct (flushed s1)).
  set (r := match securecookie.Encode c (name s1) (save_final c d s1) with
            | Err e => (Some e, st3)
            | Ok blob => _
            end).
  assert (Hlocks : manager s1 = true →
                   sessionLocks (man r.2) !! id s1 = Some true).
  { intros Em. unfold r.
    assert (sessionLocks (man st3) !! id s1 = Some true) as H3.
    { unfold st3, st2. rewrite Em. destruct (flushed s1); apply lookup_insert_eq. }
    destruct (securecookie.Encode _ _ _) as [blob|e]; [|done].
    by destruct (driver.Write d (id s1) blob).1. }
  apply defer_run with (st' := r.2).
  2:{ destruct (manager s1) eqn:Em; [|done]. unfold GetID.
      apply UnlockSession_run. by apply Hlocks. }
  rewrite (bind_run _ _ st2 st3 (save_final c d s1)).
  2:{ unfold st3, save_final. destruct (flushed s1) eqn:Ef; [done |].
      rewrite (bind_run readFromHandler _ st2 (emit (EvRead h (id (self st2))) st2)
                 _ (readFromHandler_run st2 c h d Hb2)).
      rewrite Hself2. unfold ret, latest_of. do 2 f_equal.
      destruct (driver.Read d (id s1)) as [blob|e]; [|done].
      by destruct (securecookie.Decode c (name s1) blob). }
  rewrite Hcodec, Hc. unfold GetName, GetID, r.
  destruct (securecookie.Encode c (name s1) (save_final c d s1)) as [blob|e]; [|done].
  rewrite (bind_run _ _ st3 _ _ (driver_Write_run st3 c h d (id s1) blob Hb3)).
  destruct (driver.Write d (id s1) blob).1 as [e|]; [done |].
  cbn [fst snd]. unfold bind, modify, ret. cbn [self wrote emit with_man].
  by rewrite Hself3.
Qed.

(** C1, as amended.  A save of a dirty session that was not flushed first
    ages the flash data, then re-reads the persisted state of its ID (empty
    when the read or the decode fails), deletes the keys of [forgets], sets
    the keys of [puts], and hands the encoding of exactly that map to the
    driver's Write under the session's ID, between taking and releasing the
    lock.  The deltas are the ones the session holds after the aging step,
    which may have added to both; they are the caller's own when there is no
    flash data to age. *)
Theorem Save_merges st c h d :
  dirty (self st) = true → flushed (self st) = false →
  flash_wf (self st) → bound st c h d → lock_free st →
  let s := self st in
  let s1 := after_aging s in
  let latest := latest_of c (name s) (driver.Read d (id s)) in
  let final := merged latest (puts s1) (forgets s1) in
  (∀ key, final !! key =
            match puts s1 !! key with
            | Some v => Some v
            | None => if decide (key ∈ forgets s1) then None else latest !! key
            end)
  ∧ (flash_idle s → puts s1 = puts s ∧ forgets s1 = forgets s)
  ∧ match securecookie.Encode c (name s) final with
    | Err e =>
        (Save st).1 = Ret (Some e)
        ∧ drivers (man (Save st).2) = drivers (man st)
        ∧ trace (Save st).2 =
            trace st ++ lock_events s ++ [EvRead h (id s)] ++ unlock_events s
    | Ok blob =>
        (Save st).1 = Ret (driver.Write d (id s) blob).1
        ∧ drivers (man (Save st).2) =
            <[h := (driver.Write d (id s) blob).2]> (drivers (man st))
        ∧ trace (Save st).2 =
            trace st ++ lock_events s
              ++ [EvRead h (id s); EvWrite h (id s) blob] ++ unlock_events s
    end.
Proof.
  intros Hdirty Hflushed Hwf Hb Hfree s s1 latest final.
  change (flushed s = false) in Hflushed.
  split; [intros key; apply merged_lookup |].
  split; [intros Hidle; unfold s1; by rewrite after_aging_idle |].
  destruct (after_aging_frame s) as (Hid & Hname & _ & _ & Hman & _ & Hfl).
  fold s1 in Hid, Hname, Hman, Hfl.
  rewrite (Save_dirty st c h d Hwf Hb Hfree (after_aging_dirty _ Hdirty)).
  unfold Save_result. fold s s1.
  assert (Hfinal : save_final c d s1 = final).
  { unfold save_final, final, latest. rewrite Hfl. fold s. rewrite Hflushed.
    by rewrite merge_merged, Hname, Hid. }
  rewrite Hfinal, Hname, Hid, Hfl. fold s. rewrite Hflushed.
  unfold lock_events, unlock_events. rewrite Hman.
  destruct (securecookie.Encode c (name s) final) as [blob|e].
  - destruct (driver.Write d (id s) blob) as [[e|] d'];
      destruct (manager s); cbn; rewrite <- ?app_assoc; done.
  - destruct (manager s); cbn; rewrite <- ?app_assoc; done.
Qed.

Lemma Flush_overwriting s : overwriting (Flush s).
Proof. done. Qed.

Lemma run_overwriting (ops : list op) : preserves overwriting (run ops).
Proof.
  assert (HPut : ∀ key v s, overwriting s → overwriting (Put key v s)).
  { intros key v s [Hf _]. done. }
  assert (HForget : ∀ keys s, overwriting s → overwriting (Forget keys s)).
  { intros keys s [Hf _]. split; [|done].
    destruct (Forget_frame keys s) as (_ & _ & _ & _ & _ & _ & ->). done. }
  induction ops as [|o ops IH]; simpl; [apply preserves_ret |].
  apply preserves_bind; [|intros _; apply IH].
  destruct o as [key v|keys|key def| |key v|key v|keys| |]; simpl.
  - apply preserves_modify. intros s. apply HPut.
  - apply preserves_modify. intros s. apply HForget.
  - apply preserves_modify. intros s [Hf _]. unfold Pull.
    destruct (maps.Pull _ key def). done.
  - apply preserves_modify. intros s _. apply Flush_overwriting.
  - by apply preserves_Flash.
  - by apply preserves_Now.
  - by apply preserves_Keep.
  - by apply preserves_Reflash.
  - by apply preserves_ageFlashData.
Qed.

Lemma migrate_overwriting st destroy st' :
  migrate destroy st = (Ret None, st') → overwriting (self st').
Proof.
  unfold migrate, bind. destruct destroy as [|[] ?].
  - unfold ret, generateSessionID. cbn. intros [= <-]. done.
  - destruct (get st) as [o st0] eqn:Eg. injection Eg as <- <-.
    destruct (driver_Destroy (GetID (self st)) st) as [[[e|]|msg|] st1]; try done.
    unfold generateSessionID. cbn. intros [= <-]. done.
  - unfold ret, generateSessionID. cbn. intros [= <-]. done.
Qed.

(** C4, as amended.  For a session that is flushed and dirty, a save that
    succeeds hands the driver's Write the encoding of the attributes the
    session holds in memory, and makes no Read: the blob does not depend on
    what is persisted.  The in-memory attributes are those at the time of
    the write, once the flash data have aged; they are the caller's own when
    there is no flash data to age. *)
Theorem Save_flushed_overwrites st c h d :
  flushed (self st) = true → dirty (self st) = true →
  flash_wf (self st) → bound st c h d → lock_free st →
  (Save st).1 = Ret None →
  let s := self st in
  let st' := (Save st).2 in
  ∃ blob,
    securecookie.Encode c (name s) (attributes (self st')) = Ok blob
    ∧ (driver.Write d (id s) blob).1 = None
    ∧ drivers (man st') = <[h := (driver.Write d (id s) blob).2]> (drivers (man st))
    ∧ trace st' = trace st ++ lock_events s ++ [EvWrite h (id s) blob] ++ unlock_events s
    ∧ attributes (self st') = attributes (after_aging s)
    ∧ (flash_idle s → attributes (self st') = attributes s).
Proof.
  intros Hflushed Hdirty Hwf Hb Hfree Hok s st'. revert Hok. unfold st'.
  change (flushed s = true) in Hflushed.
  destruct (after_aging_frame s) as (Hid & Hname & _ & _ & Hman & _ & Hfl).
  rewrite (Save_dirty st c h d Hwf Hb Hfree (after_aging_dirty _ Hdirty)).
  unfold Save_result. fold s. set (s1 := after_aging s) in *.
  unfold save_final, lock_events, unlock_events.
  rewrite Hname, Hid, Hfl, Hflushed, Hman.
  destruct (securecookie.Encode c (name s) (attributes s1)) as [blob|e] eqn:Eenc;
    [|by destruct (manager s)].
  destruct (driver.Write d (id s) blob) as [[e|] d'] eqn:Ew;
    [by destruct (manager s) |].
  intros _. exists blob.
  destruct (manager s); cbn [fst snd self man drivers trace attributes unlocked locked
                               wrote emit with_man with_self with_drivers
                               with_sessionLocks with_started with_dirty];
    rewrite <- ?app_assoc, ?Ew; cbn [fst snd app];
    (split; [done|]); (split; [done|]); (split; [done|]); (split; [done|]);
    (split; [done|]); intros Hidle; unfold s1; by rewrite after_aging_idle.
Qed.

(** C5, as amended.  A save of a session that is not dirty and has no flash
    data to age returns success at once and changes nothing: no lock, no
    read, no write, the same session. *)
Theorem Save_clean_noop st :
  dirty (self st) = false → flash_wf (self st) → flash_idle (self st) →
  Save st = (Ret None, st).
Proof.
  intros Hdirty Hwf Hidle. unfold Save.
  rewrite (bind_run (on_self ageFlashData) _ st st tt).
  2:{ unfold on_self. rewrite (ageFlashData_run _ Hwf), after_aging_idle by done.
      by destruct st. }
  rewrite (bind_run get _ st st st) by done. by rewrite Hdirty.
Qed.

(** C6, as amended.  When the encoding or the write fails, the save of a
    dirty session returns that error and the session stays dirty, so the
    save can be retried; the session is left as the aging step at the head
    of [Save] made it, which is as the caller left it when there was no
    flash data to age. *)
Theorem Save_failure_keeps_dirty st c h d (e : error) :
  dirty (self st) = true →
  flash_wf (self st) → bound st c h d → lock_free st →
  let s := self st in
  let final := save_final c d (after_aging s) in
  (securecookie.Encode c (name s) final = Err e
   ∨ ∃ blob, securecookie.Encode c (name s) final = Ok blob
             ∧ (driver.Write d (id s) blob).1 = Some e) →
  (Save st).1 = Ret (Some e)
  ∧ self (Save st).2 = after_aging s
  ∧ dirty (self (Save st).2) = true
  ∧ (flash_idle s → self (Save st).2 = s).
Proof.
  intros Hdirty Hwf Hb Hfree s final Hfail.
  destruct (after_aging_frame s) as (Hid & Hname & _ & _ & Hman & _ & Hfl).
  pose proof (after_aging_dirty _ Hdirty) as Hd1.
  rewrite (Save_dirty st c h d Hwf Hb Hfree Hd1).
  unfold Save_result. fold s. fold final. set (s1 := after_aging s) in *.
  rewrite Hname, Hid.
  assert (Hgoal : ∀ r : option error * State (D:=D),
             r.1 = Some e → self r.2 = s1 →
             (Ret r.1 : outcome (option error),
               if manager s1 then unlocked (id s) r.2 else r.2).1 = Ret (Some e)
             ∧ self (Ret r.1 : outcome (option error),
                      if manager s1 then unlocked (id s) r.2 else r.2).2 = s1
             ∧ dirty (self (Ret r.1 : outcome (option error),
                      if manager s1 then unlocked (id s) r.2 else r.2).2) = true
             ∧ (flash_idle s →
                self (Ret r.1 : outcome (option error),
                      if manager s1 then unlocked (id s) r.2 else r.2).2 = s)).
  { intros [r1 r2] Hr1 Hr2. cbn [fst snd] in *. subst r1.
    assert (self (if manager s1 then unlocked (id s) r2 else r2) = s1) as ->
      by (by destruct (manager s1)).
    repeat split; [done |]. intros Hidle. unfold s1. by apply after_aging_idle. }
  destruct Hfail as [Henc|(blob & Henc & Hw)]; rewrite Henc.
  - apply Hgoal; [done |]. cbn [snd]. by destruct (manager s1), (flushed s1).
  - cbn zeta. rewrite Hw. apply Hgoal; [done |]. cbn [snd].
    by destruct (manager s1), (flushed s1).
Qed.

(** C7, as amended.  When the read or the decode fails, [Start] returns
    true and loads nothing: the attributes stay as they were, so they are
    empty when they were empty before, as in a session fresh from the
    pool. *)
Theorem Start_load_failure st c h d :
  bound st c h d → load_fails c d (self st) →
  Start st = (Ret true, emit (EvRead h (id (self st)))
                          (with_self (with_started true (self st)) st))
  ∧ attributes (self (Start st).2) = attributes (self st)
  ∧ (attributes (self st) = ∅ → attributes (self (Start st).2) = ∅).
Proof.
  intros Hb Hfail.
  assert (Hrun : Start st = (Ret true, emit (EvRead h (id (self st)))
                               (with_self (with_started true (self st)) st))).
  { unfold Start, loadSession.
    rewrite (bind_run _ _ st (emit (EvRead h (id (self st))) st) tt).
    2:{ rewrite (bind_run readFromHandler _ st _ _ (readFromHandler_run st c h d Hb)).
        unfold load_fails in Hfail.
        destruct (driver.Read d (id (self st))) as [blob|e]; [|done].
        by destruct (securecookie.Decode c (name (self st)) blob). }
    done. }
  rewrite Hrun. split; [done |]. split; [done |]. intros Hempty. exact Hempty.
Qed.

End SaveFacts.

(** ** Session IDs *)

Lemma generate_length (a : string) (t : nat → nat) (pos n : nat) :
  String.length (nanoid.generate a t pos n) = n.
Proof. revert pos. induction n as [|n IH]; intros pos; simpl; [done | by rewrite IH]. Qed.

Lemma get_In (a : string) (n : nat) (c : ascii) :
  String.get n a = Some c → In c (list_ascii_of_string a).
Proof.
  revert n. induction a as [|x a IH]; intros n; simpl; [done |].
  destruct n as [|n]; [intros [= ->]; by left | intros Hn; right; eauto].
Qed.

Lemma get_lt (a : string) (n : nat) :
  n < String.length a → is_Some (String.get n a).
Proof.
  revert n. induction a as [|x a IH]; intros n; simpl; [lia |].
  destruct n as [|n]; [by eexists | intros Hn; apply IH; lia].
Qed.

Lemma pick_In (a : string) (r : nat) :
  a ≠ "" → In (nanoid.pick a r) (list_ascii_of_string a).
Proof.
  intros Ha. unfold nanoid.pick.
  assert (Hlen : String.length a ≠ 0) by (destruct a; [done | simpl; lia]).
  destruct (get_lt a (r mod String.length a)) as [c Hc].
  { apply Nat.mod_upper_bound. exact Hlen. }
  rewrite Hc. by apply get_In in Hc.
Qed.

Lemma generate_alphabet (a : string) (t : nat → nat) (pos n : nat) :
  a ≠ "" →
  Forall (fun c => In c (list_ascii_of_string a))
         (list_ascii_of_string (nanoid.generate a t pos n)).
Proof.
  intros Ha. revert pos. induction n as [|n IH]; intros pos; simpl.
  - constructor.
  - constructor; [by apply pick_In | apply IH].
Qed.

Section ManagerFacts.

Context {D : Type} `{!driver.Driver D}.

Implicit Types (st : State (D:=D)) (m : Manager (D:=D)) (s : Session).

(** C10. [SetID] returns; the session's ID becomes the given one exactly
    when that has 32 bytes, whatever they are; otherwise it becomes a
    freshly generated ID of 32 characters of the alphabet, which is
    therefore not the given value.  No other field changes. *)
Theorem SetID_spec st (i : string) :
  let st' := (SetID i st).2 in
  (SetID i st).1 = Ret tt
  ∧ (id (self st') = i ↔ String.length i = 32)
  ∧ String.length (id (self st')) = 32
  ∧ (String.length i ≠ 32 →
       id (self st') = nanoid.generate alphabet (tape st) (cursor st) 32
       ∧ Forall (fun c => In c (list_ascii_of_string alphabet))
                (list_ascii_of_string (id (self st')))
       ∧ id (self st') ≠ i)
  ∧ self st' = with_id (id (self st')) (self st).
Proof.
  unfold SetID, isValidID. case_bool_decide as Hlen.
  - unfold modify. cbn [fst snd self with_self id with_id]. repeat split; done.
  - unfold bind, generateSessionID, nanoid.MustCustomASCII, modify.
    cbn [fst snd self with_self with_cursor id with_id tape cursor].
    pose proof (generate_length alphabet (tape st) (cursor st) 32) as Hg.
    split; [done |]. split.
    { split; [intros <- | intros]; done. }
    split; [exact Hg |]. split; [|done].
    intros _. split; [done |]. split; [by apply generate_alphabet |].
    intros Heq. apply Hlen. by rewrite <- Heq.
Qed.

(** *** The pool *)

Lemma reset_pristine s : reset s = pristine.
Proof. done. Qed.

Lemma NewManager_pool newCodec lifetime gcInterval defaultDriver m :
  NewManager newCodec lifetime gcInterval defaultDriver = Ret (Ok m) → pool_pristine m.
Proof.
  unfold NewManager. destruct newCodec as [c|e]; [|done].
  destruct defaultDriver as [d|]; [|intros [= <-]; constructor].
  unfold createDefaultDriver, Extend, startGcTimer, bind, get, modify, ret.
  cbn [drivers]. rewrite lookup_empty. cbn [GcInterval with_drivers].
  case_bool_decide; [done |]. intros [= <-]. constructor.
Qed.

Lemma ReleaseSession_pool session st :
  pool_pristine (man st) → pool_pristine (man (ReleaseSession session st).2).
Proof. intros Hp. constructor; [apply reset_pristine | exact Hp]. Qed.

Lemma AcquireSession_run st :
  pool_pristine (man st) →
  ∃ st', AcquireSession st = (Ret pristine, st')
         ∧ pool_pristine (man st')
         ∧ Codec (man st') = Codec (man st) ∧ drivers (man st') = drivers (man st)
         ∧ sessionLocks (man st') = sessionLocks (man st)
         ∧ tape st' = tape st ∧ cursor st' = cursor st ∧ trace st' = trace st.
Proof.
  intros Hp. unfold AcquireSession, bind, get.
  unfold pool_pristine in *.
  destruct (sessionPool (man st)) as [|s pool] eqn:Epool.
  - exists st. rewrite Epool. repeat split; done.
  - inversion Hp as [|? ? Hs Hpool]; subst. eexists. split; [done |].
    repeat split; try done.
Qed.

Lemma Manager_driver_registered m (n : string) (d : D) :
  n ≠ "" → drivers m !! n = Some d → Manager_driver m [n] = Ok n.
Proof.
  intros Hn Hd. unfold Manager_driver.
  rewrite bool_decide_eq_false_2 by done. by rewrite Hd.
Qed.

Lemma Manager_driver_Ok m drv (h : string) :
  Manager_driver m drv = Ok h → is_Some (drivers m !! h).
Proof.
  unfold Manager_driver. case_bool_decide; [done |].
  destruct (drivers m !! _) eqn:E; [|done]. intros [= <-]. by rewrite E.
Qed.

(** C3, as amended.  When the driver resolves, [BuildSession] returns a
    session taken from the pool and bound to the resolved driver, the
    manager's codec and the manager, named as asked, with no data loaded
    (attributes, puts and forgets empty, no flag set), and with a freshly
    generated 32-character ID assigned. *)
Theorem BuildSession_binds st (name : string) (drv : list string) (h : string) :
  pool_pristine (man st) → Manager_driver (man st) drv = Ok h →
  ∃ s st',
    BuildSession name drv st = (Ret (Ok s), st')
    ∧ s = mkSession (nanoid.generate alphabet (tape st) (cursor st) 32) name ∅
                    (Some (Codec (man st))) (Some h) true false false false ∅ ∅
    ∧ String.length (id s) = 32
    ∧ is_Some (drivers (man st) !! h)
    ∧ pool_pristine (man st').
Proof.
  intros Hp Hd. destruct (AcquireSession_run st Hp)
    as (st1 & Hacq & Hp1 & Hc1 & _ & _ & Ht1 & Hcur1 & _).
  unfold BuildSession.
  rewrite (bind_run get _ st st st) by done. rewrite Hd.
  rewrite (bind_run _ _ _ _ _ Hacq).
  unfold generateSessionID, nanoid.MustCustomASCII, bind, get, ret.
  rewrite Ht1, Hcur1. cbn [man with_cursor]. rewrite Hc1.
  eexists _, _. split; [done |]. split; [done |].
  split; [apply generate_length |]. split; [by eapply Manager_driver_Ok | done].
Qed.

(** The session that [BuildSession] returns meets the standing assumptions
    of the properties of [Save]: bound, well typed, deltas apart. *)
Lemma BuildSession_bound st (name : string) (drv : list string) (h : string) s st' :
  pool_pristine (man st) → Manager_driver (man st) drv = Ok h →
  BuildSession name drv st = (Ret (Ok s), st') →
  (∃ d, bound (with_self s st') (Codec (man st)) h d)
  ∧ flash_wf s ∧ deltas_disjoint s ∧ manager s = true.
Proof.
  intros Hp Hd. destruct (AcquireSession_run st Hp)
    as (st1 & Hacq & _ & Hc1 & Hd1 & _ & _ & _ & _).
  destruct (Manager_driver_Ok _ _ _ Hd) as [d Hh].
  unfold BuildSession.
  rewrite (bind_run get _ st st st) by done. rewrite Hd.
  rewrite (bind_run _ _ _ _ _ Hacq).
  unfold generateSessionID, nanoid.MustCustomASCII, bind, get, ret.
  cbn [man with_cursor]. rewrite Hc1. intros [= <- <-].
  split; [|split; [|split; [|done]]].
  - exists d. split; [done |]. split; [done |].
    cbn [man with_self with_cursor]. by rewrite Hd1.
  - split; unfold slice_or_absent; cbn [attributes with_manager with_driver with_codec
                                           with_name with_id pristine];
      by rewrite lookup_empty.
  - intros key [v Hv]. cbn in Hv. by rewrite lookup_empty in Hv.
Qed.

(** *** The lock registry *)

(** Neither call removes an entry. *)
Lemma LockSession_keeps st (sid k : string) :
  is_Some (sessionLocks (man st) !! k) →
  is_Some (sessionLocks (man (LockSession sid st).2) !! k).
Proof.
  intros Hk. unfold LockSession.
  destruct (sessionLocks (man st) !! sid) as [[]|] eqn:E; cbn; try done.
  - destruct (decide (sid = k)) as [->|]; [by rewrite lookup_insert_eq |].
    by rewrite lookup_insert_ne.
  - destruct (decide (sid = k)) as [->|]; [by rewrite lookup_insert_eq |].
    by rewrite lookup_insert_ne.
Qed.

Lemma UnlockSession_keeps st (sid k : string) :
  is_Some (sessionLocks (man st) !! k) →
  is_Some (sessionLocks (man (UnlockSession sid st).2) !! k).
Proof.
  intros Hk. unfold UnlockSession.
  destruct (sessionLocks (man st) !! sid) as [[]|] eqn:E; cbn; try done.
  destruct (decide (sid = k)) as [->|]; [by rewrite lookup_insert_eq |].
  by rewrite lookup_insert_ne.
Qed.

(** A matched pair of calls leaves the entry behind. *)
Lemma lock_unlock_leaves_entry st (sid : string) :
  sessionLocks (man st) !! sid ≠ Some true →
  ∃ st', bind (LockSession sid) (fun _ => UnlockSession sid) st = (Ret tt, st')
         ∧ sessionLocks (man st') !! sid = Some false.
Proof.
  intros Hfree. eexists. split.
  - rewrite (bind_run _ _ _ _ _ (LockSession_run sid st Hfree)).
    apply UnlockSession_run. apply lookup_insert_eq.
  - cbn. apply lookup_insert_eq.
Qed.

End ManagerFacts.

(** ** Save against the in-memory driver *)

(** After a flushed save, the record under the ID is the encoding of the
    in-memory attributes, whatever the backend held before. *)
Lemma Save_flushed_replaces_record (st : State) c h (d : memoryDriver) (blob : string) :
  flushed (self st) = true → dirty (self st) = true →
  flash_wf (self st) → bound st c h d → lock_free st →
  failWrite d = false →
  securecookie.Encode c (name (self st)) (attributes (after_aging (self st))) = Ok blob →
  (Save st).1 = Ret None
  ∧ ∃ d', drivers (man (Save st).2) !! h = Some d'
          ∧ driver.Read d' (id (self st)) = Ok blob.
Proof.
  intros Hflushed Hdirty Hwf Hb Hfree Hw Henc.
  destruct (after_aging_frame (self st)) as (Hid & Hname & _ & _ & Hman & _ & Hfl).
  rewrite (Save_dirty st c h d Hwf Hb Hfree (after_aging_dirty _ Hdirty)).
  unfold Save_result, save_final. rewrite Hname, Hid, Hfl, Hflushed, Henc.
  cbn [driver.Write memoryDriver_Driver]. rewrite Hw. cbn [fst snd].
  split; [done |]. eexists. split.
  - destruct (manager (after_aging (self st)));
      cbn [man drivers unlocked locked wrote emit with_man with_self with_drivers
           with_sessionLocks]; apply lookup_insert_eq.
  - cbn [driver.Read memoryDriver_Driver data]. by rewrite lookup_insert_eq.
Qed.

(** * Concrete runs *)

Lemma demo_bound s d :
  codec s = Some demo_codec → driver s = Some "mock" →
  bound (demo_state s d) demo_codec "mock" d.
Proof. intros Hc Hd. split; [exact Hc | split; [exact Hd | apply lookup_insert_eq]]. Qed.

Lemma demo_lock_free s d : lock_free (demo_state s d).
Proof. intros _. cbn. by rewrite lookup_empty. Qed.

Lemma Save_merges_witness :
  dirty (self merge_state) = true
  ∧ flushed (self merge_state) = false
  ∧ flash_wf (self merge_state)
  ∧ bound merge_state demo_codec "mock" backend_seed
  ∧ lock_free merge_state
  ∧ trace (Save merge_state).2 =
      [EvLock demo_id; EvRead "mock" demo_id;
       EvWrite "mock" demo_id "session|k='v';seed=1;"; EvUnlock demo_id].
Proof.
  assert (H1 : dirty (self merge_state) = true) by reflexivity.
  assert (H2 : flushed (self merge_state) = false) by reflexivity.
  assert (H3 : flash_wf (self merge_state)) by (split; vm_compute; exact I).
  assert (H4 : bound merge_state demo_codec "mock" backend_seed)
    by (by apply demo_bound).
  assert (H5 : lock_free merge_state) by apply demo_lock_free.
  do 5 (split; [assumption |]).
  pose proof (Save_merges merge_state demo_codec "mock" backend_seed H1 H2 H3 H4 H5)
    as (_ & _ & H).
  vm_compute in H. vm_compute. exact (proj2 (proj2 H)).
Defined.

(** C1 as stated fails: the key [y] is in neither delta when [Save] is
    called and the re-read state holds it, yet the map that is written does
    not: the aging step at the head of [Save] has forgotten it. *)
Lemma Save_merges_counterexample :
  dirty (self pending_put_state) = true
  ∧ flushed (self pending_put_state) = false
  ∧ puts (self pending_put_state) !! "y" = None
  ∧ forgets (self pending_put_state) = ∅
  ∧ latest_of demo_codec "session"
      (driver.Read
         (mkMemoryDriver
            (<[demo_id := "session|_flash.old=['y',];_flash.new=[];y=2;"]> ∅) false)
         demo_id) = flash_attrs
  ∧ flash_attrs !! "y" = Some (VInt 2)
  ∧ securecookie.Encode demo_codec "session"
      (merged flash_attrs (puts (self pending_put_state))
         (forgets (self pending_put_state)))
    = Ok "session|_flash.old=['y',];_flash.new=[];k='v';y=2;"
  ∧ (Save pending_put_state).1 = Ret None
  ∧ trace (Save pending_put_state).2 =
      [EvLock demo_id; EvRead "mock" demo_id;
       EvWrite "mock" demo_id "session|_flash.old=[];_flash.new=[];k='v';";
       EvUnlock demo_id].
Proof. do 8 (split; [vm_compute; reflexivity |]). vm_compute. reflexivity. Qed.

Lemma Save_flushed_overwrites_witness :
  flushed (self flushed_state) = true
  ∧ dirty (self flushed_state) = true
  ∧ flash_wf (self flushed_state)
  ∧ bound flushed_state demo_codec "mock" backend_seed
  ∧ lock_free flushed_state
  ∧ (Save flushed_state).1 = Ret None
  ∧ ∃ blob,
      securecookie.Encode demo_codec "session"
        (attributes (self (Save flushed_state).2)) = Ok blob
      ∧ trace (Save flushed_state).2 =
          [EvLock demo_id; EvWrite "mock" demo_id blob; EvUnlock demo_id].
Proof.
  assert (H1 : flushed (self flushed_state) = true) by reflexivity.
  assert (H2 : dirty (self flushed_state) = true) by reflexivity.
  assert (H3 : flash_wf (self flushed_state)) by (split; vm_compute; exact I).
  assert (H4 : bound flushed_state demo_codec "mock" backend_seed)
    by (by apply demo_bound).
  assert (H5 : lock_free flushed_state) by apply demo_lock_free.
  assert (H6 : (Save flushed_state).1 = Ret None) by (vm_compute; reflexivity).
  do 6 (split; [assumption |]).
  destruct (Save_flushed_overwrites flushed_state demo_codec "mock" backend_seed
              H1 H2 H3 H4 H5 H6) as (blob & He & _ & _ & Ht & _).
  exists blob. split; [exact He | exact Ht].
Defined.

Lemma Save_clean_noop_witness :
  dirty (self clean_state) = false
  ∧ flash_wf (self clean_state)
  ∧ flash_idle (self clean_state)
  ∧ Save clean_state = (Ret None, clean_state).
Proof.
  assert (H1 : dirty (self clean_state) = false) by reflexivity.
  assert (H2 : flash_wf (self clean_state)) by (split; vm_compute; exact I).
  assert (H3 : flash_idle (self clean_state)) by (split; vm_compute; reflexivity).
  do 3 (split; [assumption |]).
  exact (Save_clean_noop clean_state H1 H2 H3).
Defined.

(** C4 as stated fails twice.  A flushed session stays flushed once saved,
    and is no longer dirty: a further save returns success and writes
    nothing, so what another request wrote since stays in the backend and is
    not what the session holds.  And what is written is the attributes once
    the flash data have aged: a key stored with [Now] after the flush is in
    the session when [Save] is called and is not in what is written. *)
Lemma Save_flushed_counterexample :
  (Save flushed_first_state).1 = Ret None
  ∧ self (Save flushed_first_state).2 = self flushed_saved_state
  ∧ flushed (self flushed_saved_state) = true
  ∧ dirty (self flushed_saved_state) = false
  ∧ attributes (self flushed_saved_state) = ∅
  ∧ driver.Read backend_seed demo_id = Ok "session|seed=1;"
  ∧ Save flushed_saved_state = (Ret None, flushed_saved_state)
  ∧ flushed (self flushed_now_state) = true
  ∧ dirty (self flushed_now_state) = true
  ∧ attributes (self flushed_now_state) !! "k" = Some (VStr "v")
  ∧ securecookie.Encode demo_codec "session" (attributes (self flushed_now_state))
    = Ok "session|_flash.old=['k',];k='v';"
  ∧ (Save flushed_now_state).1 = Ret None
  ∧ trace (Save flushed_now_state).2 =
      [EvLock demo_id; EvWrite "mock" demo_id "session|_flash.old=[];_flash.new=[];";
       EvUnlock demo_id].
Proof. do 12 (split; [vm_compute; reflexivity |]). vm_compute. reflexivity. Qed.

(** The pending state is what [Start] makes of a session just built for the
    ID, when the request before flashed [y]. *)
Lemma pending_state_reached :
  Start (demo_state (with_started false (demo_session ∅))
           (mkMemoryDriver
              (<[demo_id := "session|_flash.old=['y',];_flash.new=[];y=2;"]> ∅) false))
  = (Ret true, emit (EvRead "mock" demo_id) pending_state).
Proof. vm_compute. reflexivity. Qed.

(** C5 as stated fails: the session is not dirty when [Save] is called, yet
    the aging step dirties it, and the save locks, reads, writes and
    changes the session. *)
Lemma Save_clean_counterexample :
  dirty (self pending_state) = false
  ∧ flash_wf (self pending_state)
  ∧ Save pending_state ≠ (Ret None, pending_state)
  ∧ trace (Save pending_state).2 =
      [EvLock demo_id; EvRead "mock" demo_id;
       EvWrite "mock" demo_id "session|_flash.old=[];_flash.new=[];"; EvUnlock demo_id]
  ∧ attributes (self pending_state) !! "y" = Some (VInt 2)
  ∧ attributes (self (Save pending_state).2) !! "y" = None.
Proof.
  split; [reflexivity |]. split; [split; vm_compute; exact I |].
  assert (Ht : trace (Save pending_state).2 =
                 [EvLock demo_id; EvRead "mock" demo_id;
                  EvWrite "mock" demo_id "session|_flash.old=[];_flash.new=[];";
                  EvUnlock demo_id]) by (vm_compute; reflexivity).
  split.
  - intros Heq. rewrite Heq in Ht. discriminate Ht.
  - split; [exact Ht |]. split; vm_compute; reflexivity.
Qed.

Lemma Save_failure_keeps_dirty_witness :
  dirty (self failing_state) = true
  ∧ flash_wf (self failing_state)
  ∧ bound failing_state demo_codec "mock" backend_failing
  ∧ lock_free failing_state
  ∧ (Save failing_state).1 = Ret (Some "write failed")
  ∧ self (Save failing_state).2 = self failing_state.
Proof.
  assert (H1 : dirty (self failing_state) = true) by reflexivity.
  assert (H2 : flash_wf (self failing_state)) by (split; vm_compute; exact I).
  assert (H3 : bound failing_state demo_codec "mock" backend_failing)
    by (by apply demo_bound).
  assert (H4 : lock_free failing_state) by apply demo_lock_free.
  do 4 (split; [assumption |]).
  destruct (Save_failure_keeps_dirty failing_state demo_codec "mock" backend_failing
              "write failed" H1 H2 H3 H4) as (Hr & _ & _ & Hs).
  { right. eexists. split; vm_compute; reflexivity. }
  split; [exact Hr |]. apply Hs. split; vm_compute; reflexivity.
Defined.

(** C6 as stated fails in its parenthesis: the save returns the write error
    and the session stays dirty, but the aging step has already run, so the
    attributes, the puts and the forgets are not what they were. *)
Lemma Save_failure_counterexample :
  dirty (self failing_flash_state) = true
  ∧ flash_wf (self failing_flash_state)
  ∧ (Save failing_flash_state).1 = Ret (Some "write failed")
  ∧ dirty (self (Save failing_flash_state).2) = true
  ∧ attributes (self failing_flash_state) !! "y" = Some (VInt 2)
  ∧ attributes (self (Save failing_flash_state).2) !! "y" = None
  ∧ puts (self failing_flash_state) !! "_flash.new" = None
  ∧ puts (self (Save failing_flash_state).2) !! "_flash.new" = Some (VSlice [])
  ∧ forgets (self failing_flash_state) = ∅
  ∧ forgets (self (Save failing_flash_state).2) = {["y"]}.
Proof.
  split; [reflexivity |]. split; [split; vm_compute; exact I |].
  repeat split; vm_compute; reflexivity.
Qed.

Lemma Start_load_failure_witness :
  bound absent_state demo_codec "mock" (newMemoryDriver false)
  ∧ load_fails demo_codec (newMemoryDriver false) (self absent_state)
  ∧ (Start absent_state).1 = Ret true
  ∧ attributes (self (Start absent_state).2) = ∅.
Proof.
  assert (H1 : bound absent_state demo_codec "mock" (newMemoryDriver false))
    by (by apply demo_bound).
  assert (H2 : load_fails demo_codec (newMemoryDriver false) (self absent_state))
    by (vm_compute; exact I).
  do 2 (split; [assumption |]).
  destruct (Start_load_failure absent_state demo_codec "mock" (newMemoryDriver false) H1 H2)
    as (Hr & _ & He).
  split; [by rewrite Hr | by apply He].
Defined.

(** C7 as stated fails where the session already holds attributes: the
    failed load adds nothing, and takes nothing away either. *)
Lemma Start_counterexample :
  load_fails demo_codec (newMemoryDriver false) (self put_before_start)
  ∧ (Start put_before_start).1 = Ret true
  ∧ attributes (self (Start put_before_start).2) !! "a" = Some (VInt 1)
  ∧ attributes (self (Start put_before_start).2) ≠ ∅.
Proof.
  assert (Ha : attributes (self (Start put_before_start).2) !! "a" = Some (VInt 1))
    by (vm_compute; reflexivity).
  split; [vm_compute; exact I |]. split; [vm_compute; reflexivity |].
  split; [exact Ha |]. intros He. rewrite He in Ha. by rewrite lookup_empty in Ha.
Qed.

Lemma BuildSession_binds_witness :
  pool_pristine (man fresh_state)
  ∧ Manager_driver (man fresh_state) ["mock"] = Ok "mock"
  ∧ ∃ s st', BuildSession "session" ["mock"] fresh_state = (Ret (Ok s), st')
             ∧ String.length (id s) = 32.
Proof.
  assert (H1 : pool_pristine (man fresh_state)) by constructor.
  assert (H2 : Manager_driver (man fresh_state) ["mock"] = Ok "mock")
    by (vm_compute; reflexivity).
  do 2 (split; [assumption |]).
  destruct (BuildSession_binds fresh_state "session" ["mock"] "mock" H1 H2)
    as (s & st' & Hb & _ & Hlen & _).
  exists s, st'. split; [exact Hb | exact Hlen].
Defined.

(** C3 as stated fails: the session that [BuildSession] returns has an ID. *)
Lemma BuildSession_counterexample :
  ∃ s st', BuildSession "session" ["mock"] fresh_state = (Ret (Ok s), st')
           ∧ id s = "3AHOVcjqx4BIPWdkry5CJQXelsz6DKRY"
           ∧ id s ≠ "".
Proof.
  destruct (BuildSession "session" ["mock"] fresh_state) as [o st'] eqn:E.
  vm_compute in E. injection E as <- <-.
  eexists _, _. split; [reflexivity |]. split; [reflexivity | discriminate].
Qed.

Lemma SetID_spec_witness :
  String.length "tampered" ≠ 32
  ∧ id (self (SetID "tampered" fresh_state).2) = "3AHOVcjqx4BIPWdkry5CJQXelsz6DKRY"
  ∧ id (self (SetID "tampered" fresh_state).2) ≠ "tampered".
Proof.
  assert (H1 : String.length "tampered" ≠ 32) by (vm_compute; discriminate).
  split; [assumption |].
  destruct (SetID_spec fresh_state "tampered") as (_ & _ & _ & H & _).
  destruct (H H1) as (Hg & _ & Hne). split; [|exact Hne].
  rewrite Hg. vm_compute. reflexivity.
Defined.

(** C2: the schedule of the repository's test of the lock registry.  The
    holder locks, a second goroutine parks on the same ID, the holder unlocks,
    the second goroutine takes the lock and unlocks.  Every call is matched,
    and the entry for the ID is still in the registry. *)
Theorem lock_registry_keeps_entry :
  let st1 := (LockSession demo_id fresh_state).2 in
  let parked := LockSession demo_id st1 in
  let st3 := (UnlockSession demo_id parked.2).2 in
  let st4 := (LockSession demo_id st3).2 in
  let st5 := (UnlockSession demo_id st4).2 in
  sessionLocks (man fresh_state) = ∅
  ∧ parked.1 = Blocked
  ∧ (UnlockSession demo_id st4).1 = Ret tt
  ∧ sessionLocks (man st5) !! demo_id = Some false
  ∧ size (sessionLocks (man st5)) = 1.
Proof. vm_compute. repeat split; reflexivity. Qed.

(** * Further properties of the code *)

(** ** Reading and writing attributes *)

(** X1. What was put is what is read: after [Put key v], [Get key] is [v]
    whatever the default, the key exists, [Has] tells whether [v] is not
    nil, the session is dirty, and every other key reads as before. *)
Theorem Put_then_Get (s : Session) (key : string) (v : value) (def : list value) :
  Get (Put key v s) key def = v
  ∧ Exists (Put key v s) key = true
  ∧ (Has (Put key v s) key = true ↔ v ≠ VNil)
  ∧ dirty (Put key v s) = true
  ∧ (∀ k d, k ≠ key →
       Get (Put key v s) k d = Get s k d
       ∧ Exists (Put key v s) k = Exists s k
       ∧ Has (Put key v s) k = Has s k).
Proof.
  unfold Get, Exists, Has, maps.Get, maps.Exists.
  cbn [Put attributes dirty with_attributes with_puts with_forgets with_dirty].
  rewrite lookup_insert_eq. split; [done |]. split.
  { apply bool_decide_eq_true. by eexists. }
  split; [destruct v; split; done |]. split; [done |].
  intros k d Hk. by rewrite lookup_insert_ne by done.
Qed.

(** X2. [Forget keys] leaves every listed key missing ([Get] falls back to
    the default), buffers it as a forget and drops any buffered put of it;
    keys that are not listed keep their value and their buffered put.  With
    no key at all it still marks the session dirty. *)
Theorem Forget_then_Missing (s : Session) (keys : list string) :
  (∀ key def, key ∈ keys →
     Missing (Forget keys s) key = true
     ∧ Get (Forget keys s) key def = match def with d :: _ => d | [] => VNil end
     ∧ key ∈ forgets (Forget keys s)
     ∧ puts (Forget keys s) !! key = None)
  ∧ (∀ key, key ∉ keys →
       attributes (Forget keys s) !! key = attributes s !! key
       ∧ puts (Forget keys s) !! key = puts s !! key
       ∧ (key ∈ forgets (Forget keys s) ↔ key ∈ forgets s))
  ∧ dirty (Forget keys s) = true.
Proof.
  split; [|split; [|done]].
  - intros key def Hin. unfold Missing, Exists, Get, maps.Exists, maps.Get.
    rewrite Forget_attributes, maps_Forget_lookup, Forget_forgets, Forget_puts.
    rewrite !decide_True by done. split.
    { apply negb_true_iff, bool_decide_eq_false. by intros [? ?]. }
    split; [done |]. split; [|done]. apply elem_of_union_l. by apply elem_of_list_to_set.
  - intros key Hin.
    rewrite Forget_attributes, maps_Forget_lookup, Forget_forgets, Forget_puts.
    rewrite !decide_False by done. split; [done |]. split; [done |].
    rewrite elem_of_union, elem_of_list_to_set. tauto.
Qed.

(** X3. [Pull] returns what [Get] returns for the same default and leaves
    the key missing; the other keys keep their values.  On a key that is not
    there the attributes stay as they are, yet the session becomes dirty and
    the key is buffered as a forget and not as a put. *)
Theorem Pull_reads_and_removes (s : Session) (key : string) (def : list value) :
  (Pull key def s).1 = Get s key def
  ∧ Missing (Pull key def s).2 key = true
  ∧ (∀ k, k ≠ key → attributes (Pull key def s).2 !! k = attributes s !! k)
  ∧ (Exists s key = false → attributes (Pull key def s).2 = attributes s)
  ∧ dirty (Pull key def s).2 = true
  ∧ key ∈ forgets (Pull key def s).2
  ∧ puts (Pull key def s).2 !! key = None.
Proof.
  assert (Hf := Pull_forgets key def s). assert (Hp := Pull_puts key def s key).
  revert Hf Hp. unfold Pull, Get, Missing, Exists, maps.Pull, maps.Get, maps.Exists.
  cbn [attributes forget_delta with_attributes with_puts with_forgets with_dirty].
  destruct (attributes s !! key) as [v|] eqn:Hk;
    cbn [fst snd attributes dirty with_attributes with_dirty with_puts with_forgets];
    intros Hf Hp; rewrite Hf, Hp, decide_True by done.
  - split; [done |]. split.
    { apply negb_true_iff, bool_decide_eq_false. rewrite lookup_delete_eq. by intros [? ?]. }
    split; [intros k Hne; by rewrite lookup_delete_ne |].
    split; [intros He; apply bool_decide_eq_false in He; destruct He; by eexists |].
    split; [done |]. split; [set_solver | done].
  - split; [done |]. split.
    { apply negb_true_iff, bool_decide_eq_false. rewrite Hk. by intros [? ?]. }
    split; [done |]. split; [done |]. split; [done |]. split; [set_solver | done].
Qed.

(** ** Flash data, operation by operation *)

Lemma flash_seq_Put_same (key : string) (l : list value) (s : Session) :
  flash_seq (Put key (VSlice l) s) key = l.
Proof.
  unfold flash_seq. cbn [Put attributes with_attributes with_puts with_forgets with_dirty].
  by rewrite lookup_insert_eq.
Qed.

Lemma flash_seq_Put_other (key k : string) (v : value) (s : Session) :
  k ≠ key → flash_seq (Put key v s) k = flash_seq s k.
Proof.
  intros Hne. unfold flash_seq.
  cbn [Put attributes with_attributes with_puts with_forgets with_dirty].
  by rewrite lookup_insert_ne.
Qed.

Lemma slice_Put_same (key : string) (l : list value) (s : Session) :
  slice_or_absent (Put key (VSlice l) s) key.
Proof.
  unfold slice_or_absent. cbn [Put attributes with_attributes with_puts with_forgets with_dirty].
  by rewrite lookup_insert_eq.
Qed.

Lemma slice_Put_other (key k : string) (v : value) (s : Session) :
  k ≠ key → slice_or_absent s k → slice_or_absent (Put key v s) k.
Proof.
  intros Hne. unfold slice_or_absent.
  cbn [Put attributes with_attributes with_puts with_forgets with_dirty].
  by rewrite lookup_insert_ne.
Qed.

Lemma old_new_apart : "_flash.old" ≠ "_flash.new".
Proof. discriminate. Qed.

Lemma wf_Put_slice (key : string) (l : list value) (s : Session) :
  flash_wf s → flash_wf (Put key (VSlice l) s).
Proof.
  intros [Ho Hn]. split.
  - destruct (decide (key = "_flash.old")) as [->|Hne];
      [apply slice_Put_same | by apply slice_Put_other].
  - destruct (decide (key = "_flash.new")) as [->|Hne];
      [apply slice_Put_same | by apply slice_Put_other].
Qed.

Lemma wf_Put_plain (key : string) (v : value) (s : Session) :
  ¬ reserved key → flash_wf s → flash_wf (Put key v s).
Proof.
  intros Hr [Ho Hn]. split; apply slice_Put_other; try done;
    intros <-; apply Hr; [by left | by right].
Qed.

Lemma wf_Forget (keys : list string) (s : Session) :
  flash_wf s → flash_wf (Forget keys s).
Proof.
  intros [Ho Hn]. unfold flash_wf, slice_or_absent in *.
  rewrite !Forget_attributes, !maps_Forget_lookup.
  split; case_decide; done.
Qed.

Lemma wf_Pull (key : string) (def : list value) (s : Session) :
  flash_wf s → flash_wf (Pull key def s).2.
Proof.
  intros [Ho Hn]. unfold flash_wf, slice_or_absent, Pull, maps.Pull in *.
  cbn [attributes forget_delta with_attributes with_puts with_forgets with_dirty].
  destruct (attributes s !! key) as [v|] eqn:Hk;
    cbn [snd attributes with_attributes]; [|done].
  split.
  - destruct (decide (key = "_flash.old")) as [->|Hne];
      [by rewrite lookup_delete_eq | by rewrite lookup_delete_ne].
  - destruct (decide (key = "_flash.new")) as [->|Hne];
      [by rewrite lookup_delete_eq | by rewrite lookup_delete_ne].
Qed.

Lemma wf_Flush (s : Session) : flash_wf (Flush s).
Proof.
  split; unfold slice_or_absent;
    cbn [Flush attributes with_attributes with_puts with_forgets with_dirty with_flushed];
    by rewrite lookup_empty.
Qed.

Lemma removeFromOldFlashData_run (keys : list string) (s : Session) :
  slice_or_absent s "_flash.old" →
  removeFromOldFlashData keys s = (Ret tt, old_pruned keys s).
Proof.
  intros Ho. unfold removeFromOldFlashData.
  by rewrite (bind_run _ _ _ _ _ (flashSlice_wf s "_flash.old" Ho)).
Qed.

Lemma mergeNewFlashes_run (keys : list string) (s : Session) :
  slice_or_absent s "_flash.new" →
  mergeNewFlashes keys s = (Ret tt, new_merged keys s).
Proof.
  intros Hn. unfold mergeNewFlashes.
  by rewrite (bind_run _ _ _ _ _ (flashSlice_wf s "_flash.new" Hn)).
Qed.

Lemma Flash_run (key : string) (v : value) (s : Session) :
  flash_wf s → ¬ reserved key → Flash key v s = (Ret tt, flashed key v s).
Proof.
  intros Hwf Hr. pose proof (wf_Put_plain key v s Hr Hwf) as [Ho1 Hn1].
  unfold Flash, flashed.
  rewrite (bind_run (modify (Put key v)) _ s (Put key v s) tt) by done.
  rewrite (bind_run _ _ _ _ _ (flashSlice_wf _ "_flash.new" Hn1)).
  rewrite (bind_run (modify _) _ (Put key v s) _ tt) by done.
  apply removeFromOldFlashData_run. apply slice_Put_other; [apply old_new_apart | done].
Qed.

Lemma Now_run (key : string) (v : value) (s : Session) :
  flash_wf s → ¬ reserved key → Now key v s = (Ret tt, nowed key v s).
Proof.
  intros Hwf Hr. pose proof (wf_Put_plain key v s Hr Hwf) as [Ho1 Hn1].
  unfold Now, nowed.
  rewrite (bind_run (modify (Put key v)) _ s (Put key v s) tt) by done.
  by rewrite (bind_run _ _ _ _ _ (flashSlice_wf _ "_flash.old" Ho1)).
Qed.

Lemma Keep_run (keys : list string) (s : Session) :
  flash_wf s → Keep keys s = (Ret tt, kept keys s).
Proof.
  intros [Ho Hn]. unfold Keep, kept.
  rewrite (bind_run _ _ _ _ _ (mergeNewFlashes_run keys s Hn)).
  apply removeFromOldFlashData_run. apply slice_Put_other; [apply old_new_apart | done].
Qed.

Lemma Reflash_run (s : Session) :
  flash_wf s → Reflash s = (Ret tt, reflashed s).
Proof.
  intros [Ho Hn]. unfold Reflash, reflashed.
  rewrite (bind_run _ _ _ _ _ (flashSlice_wf s "_flash.old" Ho)).
  by rewrite (bind_run _ _ _ _ _ (mergeNewFlashes_run _ s Hn)).
Qed.

Lemma wf_old_pruned keys s : flash_wf s → flash_wf (old_pruned keys s).
Proof. apply wf_Put_slice. Qed.

Lemma wf_new_merged keys s : flash_wf s → flash_wf (new_merged keys s).
Proof. apply wf_Put_slice. Qed.

Lemma wf_flashed key v s : flash_wf s → ¬ reserved key → flash_wf (flashed key v s).
Proof. intros Hwf Hr. apply wf_old_pruned, wf_Put_slice. by apply wf_Put_plain. Qed.

Lemma wf_nowed key v s : flash_wf s → ¬ reserved key → flash_wf (nowed key v s).
Proof. intros Hwf Hr. apply wf_Put_slice. by apply wf_Put_plain. Qed.

Lemma wf_kept keys s : flash_wf s → flash_wf (kept keys s).
Proof. intros Hwf. by apply wf_old_pruned, wf_new_merged. Qed.

Lemma wf_reflashed s : flash_wf s → flash_wf (reflashed s).
Proof. intros Hwf. by apply wf_Put_slice, wf_new_merged. Qed.

Lemma wf_aged s : flash_wf (aged s).
Proof.
  split; unfold slice_or_absent; rewrite aged_attributes.
  - rewrite decide_False by apply old_new_apart. by rewrite decide_True.
  - by rewrite decide_True.
Qed.

Lemma wf_after_aging s : flash_wf s → flash_wf (after_aging s).
Proof. intros Hwf. unfold after_aging. case_decide; [done | apply wf_aged]. Qed.

(** The two sequences after a round of aging: the old one is what the new
    one was, the new one is empty. *)
Lemma after_aging_seq s :
  flash_seq (after_aging s) "_flash.old" = flash_seq s "_flash.new"
  ∧ flash_seq (after_aging s) "_flash.new" = [].
Proof.
  unfold after_aging. destruct (decide (flash_idle s)) as [[Ho Hn]|_].
  - by rewrite Ho, Hn.
  - unfold flash_seq at 1 3. rewrite !aged_attributes.
    rewrite decide_False by apply old_new_apart. by rewrite !decide_True.
Qed.

Lemma after_aging_attributes s (k : string) :
  ¬ reserved k →
  attributes (after_aging s) !! k =
    if decide (k ∈ cast.ToStringSlice (flash_seq s "_flash.old")) then None
    else attributes s !! k.
Proof.
  intros Hr. unfold after_aging. destruct (decide (flash_idle s)) as [[Ho Hn]|_].
  - rewrite Ho. cbn. by rewrite decide_False by apply not_elem_of_nil.
  - rewrite aged_attributes.
    rewrite (decide_False (P := k = "_flash.new")) by (intros ->; apply Hr; by right).
    by rewrite (decide_False (P := k = "_flash.old")) by (intros ->; apply Hr; by left).
Qed.

Lemma after_aging_forgets s (k : string) :
  ¬ reserved k → k ∈ cast.ToStringSlice (flash_seq s "_flash.old") →
  k ∈ forgets (after_aging s).
Proof.
  intros Hr Hin. unfold after_aging. destruct (decide (flash_idle s)) as [[Ho Hn]|_].
  - rewrite Ho in Hin. by apply elem_of_nil in Hin.
  - rewrite aged_forgets. apply elem_of_difference. split.
    + apply elem_of_difference. split.
      * apply elem_of_union_l. by apply elem_of_list_to_set.
      * intros ->%elem_of_singleton. apply Hr. by left.
    + intros ->%elem_of_singleton. apply Hr. by right.
Qed.

(** What the two loops keep. *)
Lemma without_keys_elem (keys : list string) (old : list value) (i : value) :
  i ∈ without_keys keys old ↔ i ∈ old ∧ cast.ToString i ∉ keys.
Proof.
  unfold without_keys. revert old. induction keys as [|key keys IH]; intros old; simpl.
  - split; [intros H; split; [done | apply not_elem_of_nil] | by intros [? _]].
  - rewrite IH. unfold slices.DeleteFunc. rewrite list_elem_of_In, filter_In.
    rewrite <- list_elem_of_In, negb_true_iff, bool_decide_eq_false.
    rewrite not_elem_of_cons. tauto.
Qed.

Lemma Contains_elem (values : list value) (key : string) :
  slices.Contains values key = true ↔ VStr key ∈ values.
Proof.
  unfold slices.Contains. rewrite existsb_exists. split.
  - intros (x & Hin & Hx). destruct x; try done. cbn in Hx.
    apply bool_decide_eq_true in Hx. subst. by apply list_elem_of_In.
  - intros Hin. exists (VStr key). split; [by apply list_elem_of_In |].
    cbn. by apply bool_decide_eq_true.
Qed.

Lemma with_keys_elem (keys : list string) (values : list value) (i : value) :
  i ∈ with_keys keys values ↔ i ∈ values ∨ ∃ key, key ∈ keys ∧ i = VStr key.
Proof.
  unfold with_keys. revert values. induction keys as [|key keys IH]; intros values; simpl.
  - split; [by left | intros [?|(k & Hk & _)]; [done | by apply elem_of_nil in Hk]].
  - rewrite IH. destruct (slices.Contains values key) eqn:Hc.
    + apply Contains_elem in Hc. split.
      * intros [?|(k & Hk & ->)]; [by left | right; exists k; split; [by right | done]].
      * intros [?|(k & Hk & ->)]; [by left |].
        apply elem_of_cons in Hk as [->|Hk]; [by left | right; by exists k].
    + rewrite elem_of_app, list_elem_of_singleton. split.
      * intros [[?| ->]|(k & Hk & ->)]; [by left | right; exists key; split; [by left | done]
                                         | right; exists k; split; [by right | done]].
      * intros [?|(k & Hk & ->)]; [by left; left |].
        apply elem_of_cons in Hk as [->|Hk]; [left; by right | right; by exists k].
Qed.

Lemma ToStringSlice_elem (l : list value) (k : string) :
  k ∈ cast.ToStringSlice l ↔ ∃ i, i ∈ l ∧ cast.ToString i = k.
Proof.
  unfold cast.ToStringSlice. rewrite list_elem_of_In, in_map_iff.
  split; intros (i & H1 & H2); exists i; rewrite ?list_elem_of_In in *; done.
Qed.

Lemma Put_attributes_other (key k : string) (v : value) (s : Session) :
  k ≠ key → attributes (Put key v s) !! k = attributes s !! k.
Proof.
  intros Hne. cbn [Put attributes with_attributes with_puts with_forgets with_dirty].
  by rewrite lookup_insert_ne.
Qed.

Lemma Put_attributes_same (key : string) (v : value) (s : Session) :
  attributes (Put key v s) !! key = Some v.
Proof.
  cbn [Put attributes with_attributes with_puts with_forgets with_dirty].
  by rewrite lookup_insert_eq.
Qed.

Lemma not_reserved (k : string) : ¬ reserved k → k ≠ "_flash.old" ∧ k ≠ "_flash.new".
Proof. intros Hr. split; intros ->; apply Hr; [by left | by right]. Qed.

Lemma after_aging_puts s (k : string) :
  ¬ reserved k → k ∈ cast.ToStringSlice (flash_seq s "_flash.old") →
  puts (after_aging s) !! k = None.
Proof.
  intros [Ho Hn]%not_reserved Hin. unfold after_aging.
  destruct (decide (flash_idle s)) as [[Ho' Hn']|_].
  - rewrite Ho' in Hin. by apply elem_of_nil in Hin.
  - rewrite aged_puts. rewrite (decide_False (P := k = "_flash.new")) by done.
    rewrite (decide_False (P := k = "_flash.old")) by done.
    by rewrite decide_True.
Qed.

(** The sequences and the other attributes after each flash operation. *)
Lemma flashed_facts (key : string) (v : value) (s : Session) :
  ¬ reserved key →
  attributes (flashed key v s) !! key = Some v
  ∧ flash_seq (flashed key v s) "_flash.old" = without_keys [key] (flash_seq s "_flash.old")
  ∧ flash_seq (flashed key v s) "_flash.new" = (flash_seq s "_flash.new" ++ [VStr key])%list.
Proof.
  intros [Ho Hn]%not_reserved. unfold flashed, old_pruned. split; [|split].
  - rewrite !Put_attributes_other by done. apply Put_attributes_same.
  - rewrite flash_seq_Put_same.
    rewrite flash_seq_Put_other by apply old_new_apart.
    by rewrite flash_seq_Put_other by done.
  - rewrite flash_seq_Put_other by (symmetry; apply old_new_apart).
    rewrite flash_seq_Put_same. by rewrite flash_seq_Put_other by done.
Qed.

Lemma nowed_facts (key : string) (v : value) (s : Session) :
  ¬ reserved key →
  attributes (nowed key v s) !! key = Some v
  ∧ flash_seq (nowed key v s) "_flash.old" = (flash_seq s "_flash.old" ++ [VStr key])%list
  ∧ flash_seq (nowed key v s) "_flash.new" = flash_seq s "_flash.new".
Proof.
  intros [Ho Hn]%not_reserved. unfold nowed. split; [|split].
  - rewrite Put_attributes_other by done. apply Put_attributes_same.
  - rewrite flash_seq_Put_same. by rewrite flash_seq_Put_other by done.
  - rewrite flash_seq_Put_other by (symmetry; apply old_new_apart).
    by rewrite flash_seq_Put_other by done.
Qed.

Lemma kept_facts (keys : list string) (s : Session) :
  (∀ k, ¬ reserved k → attributes (kept keys s) !! k = attributes s !! k)
  ∧ flash_seq (kept keys s) "_flash.old" = without_keys keys (flash_seq s "_flash.old")
  ∧ flash_seq (kept keys s) "_flash.new" = with_keys keys (flash_seq s "_flash.new").
Proof.
  unfold kept, old_pruned, new_merged. split; [|split].
  - intros k [Ho Hn]%not_reserved. by rewrite !Put_attributes_other by done.
  - rewrite flash_seq_Put_same. by rewrite flash_seq_Put_other by apply old_new_apart.
  - rewrite flash_seq_Put_other by (symmetry; apply old_new_apart).
    by rewrite flash_seq_Put_same.
Qed.

Lemma reflashed_facts (s : Session) :
  (∀ k, ¬ reserved k → attributes (reflashed s) !! k = attributes s !! k)
  ∧ flash_seq (reflashed s) "_flash.old" = []
  ∧ flash_seq (reflashed s) "_flash.new" =
      with_keys (cast.ToStringSlice (flash_seq s "_flash.old")) (flash_seq s "_flash.new").
Proof.
  unfold reflashed, new_merged. split; [|split].
  - intros k [Ho Hn]%not_reserved. by rewrite !Put_attributes_other by done.
  - by rewrite flash_seq_Put_same.
  - rewrite flash_seq_Put_other by (symmetry; apply old_new_apart).
    by rewrite flash_seq_Put_same.
Qed.

Lemma without_keys_spares (keys : list string) (old : list value) (k : string) :
  k ∈ keys → k ∉ cast.ToStringSlice (without_keys keys old).
Proof.
  intros Hin (i & Hi & <-)%ToStringSlice_elem.
  apply without_keys_elem in Hi as [_ Hi]. by apply Hi.
Qed.

(** X5. A value flashed under a key that is not a bookkeeping key, on a
    session whose bookkeeping keys are well typed, is readable at once, is
    still there after the next round of aging, and is gone after the round
    after that, where it is recorded as forgotten. *)
Theorem Flash_lives_one_more_round (s : Session) (key : string) (v : value) :
  flash_wf s → ¬ reserved key →
  ∃ s1 s2 s3,
    Flash key v s = (Ret tt, s1)
    ∧ ageFlashData s1 = (Ret tt, s2)
    ∧ ageFlashData s2 = (Ret tt, s3)
    ∧ attributes s1 !! key = Some v
    ∧ attributes s2 !! key = Some v
    ∧ attributes s3 !! key = None
    ∧ key ∈ forgets s3 ∧ puts s3 !! key = None.
Proof.
  intros Hwf Hr.
  pose proof (wf_flashed key v s Hwf Hr) as Hwf1.
  pose proof (wf_after_aging _ Hwf1) as Hwf2.
  destruct (flashed_facts key v s Hr) as (Hk & Hold & Hnew).
  destruct (after_aging_seq (flashed key v s)) as [Hold2 _].
  assert (Hin : key ∈ cast.ToStringSlice (flash_seq (after_aging (flashed key v s)) "_flash.old")).
  { rewrite Hold2, Hnew. apply ToStringSlice_elem. exists (VStr key).
    split; [apply elem_of_app; right; by left | done]. }
  exists (flashed key v s), (after_aging (flashed key v s)),
    (after_aging (after_aging (flashed key v s))).
  split; [by apply Flash_run |].
  split; [by apply ageFlashData_run |].
  split; [by apply ageFlashData_run |].
  split; [done |].
  split.
  { rewrite after_aging_attributes by done. rewrite Hold.
    rewrite decide_False; [done |]. apply without_keys_spares. by left. }
  split.
  { rewrite after_aging_attributes by done. by rewrite decide_True. }
  split; [by apply after_aging_forgets | by apply after_aging_puts].
Qed.

Lemma Flash_lives_one_more_round_witness :
  flash_wf pristine ∧ ¬ reserved "notice"
  ∧ ∃ s1 s2 s3,
      Flash "notice" (VStr "saved") pristine = (Ret tt, s1)
      ∧ ageFlashData s1 = (Ret tt, s2)
      ∧ ageFlashData s2 = (Ret tt, s3)
      ∧ attributes s2 !! "notice" = Some (VStr "saved")
      ∧ attributes s3 !! "notice" = None.
Proof.
  assert (Hr : ¬ reserved "notice") by (intros [H|H]; discriminate H).
  split; [apply flash_wf_pristine |]. split; [exact Hr |].
  destruct (Flash_lives_one_more_round pristine "notice" (VStr "saved")
              flash_wf_pristine Hr)
    as (s1 & s2 & s3 & H1 & H2 & H3 & _ & H5 & H6 & _).
  exists s1, s2, s3. repeat (split; [assumption |]). assumption.
Defined.

(** X6. A value stored with Now under a key that is not a bookkeeping key is
    readable at once and is gone after the next round of aging, where it is
    recorded as forgotten and no longer as put. *)
Theorem Now_expires_at_next_round (s : Session) (key : string) (v : value) :
  flash_wf s → ¬ reserved key →
  ∃ s1 s2,
    Now key v s = (Ret tt, s1)
    ∧ ageFlashData s1 = (Ret tt, s2)
    ∧ attributes s1 !! key = Some v
    ∧ attributes s2 !! key = None
    ∧ key ∈ forgets s2 ∧ puts s2 !! key = None.
Proof.
  intros Hwf Hr.
  pose proof (wf_nowed key v s Hwf Hr) as Hwf1.
  destruct (nowed_facts key v s Hr) as (Hk & Hold & Hnew).
  assert (Hin : key ∈ cast.ToStringSlice (flash_seq (nowed key v s) "_flash.old")).
  { rewrite Hold. apply ToStringSlice_elem. exists (VStr key).
    split; [apply elem_of_app; right; by left | done]. }
  exists (nowed key v s), (after_aging (nowed key v s)).
  split; [by apply Now_run |].
  split; [by apply ageFlashData_run |].
  split; [done |].
  split.
  { rewrite after_aging_attributes by done. by rewrite decide_True. }
  split; [by apply after_aging_forgets | by apply after_aging_puts].
Qed.

Lemma Now_expires_at_next_round_witness :
  flash_wf pristine ∧ ¬ reserved "notice"
  ∧ ∃ s1 s2,
      Now "notice" (VStr "saved") pristine = (Ret tt, s1)
      ∧ ageFlashData s1 = (Ret tt, s2)
      ∧ attributes s1 !! "notice" = Some (VStr "saved")
      ∧ attributes s2 !! "notice" = None.
Proof.
  assert (Hr : ¬ reserved "notice") by (intros [H|H]; discriminate H).
  split; [apply flash_wf_pristine |]. split; [exact Hr |].
  destruct (Now_expires_at_next_round pristine "notice" (VStr "saved")
              flash_wf_pristine Hr)
    as (s1 & s2 & H1 & H2 & H3 & H4 & _).
  exists s1, s2. repeat (split; [assumption |]). assumption.
Defined.

(** X7. Keep leaves the attributes other than the two bookkeeping keys as
    they are, and a kept key survives the next round of aging with the value
    it has (or stays absent), and is gone after the round after that. *)
Theorem Keep_spares_next_round (s : Session) (keys : list string) (key : string) :
  flash_wf s → key ∈ keys → ¬ reserved key →
  ∃ s1 s2 s3,
    Keep keys s = (Ret tt, s1)
    ∧ ageFlashData s1 = (Ret tt, s2)
    ∧ ageFlashData s2 = (Ret tt, s3)
    ∧ (∀ k, ¬ reserved k → attributes s1 !! k = attributes s !! k)
    ∧ attributes s2 !! key = attributes s !! key
    ∧ attributes s3 !! key = None.
Proof.
  intros Hwf Hkey Hr.
  pose proof (wf_kept keys s Hwf) as Hwf1.
  pose proof (wf_after_aging _ Hwf1) as Hwf2.
  destruct (kept_facts keys s) as (Hattr & Hold & Hnew).
  destruct (after_aging_seq (kept keys s)) as [Hold2 _].
  exists (kept keys s), (after_aging (kept keys s)), (after_aging (after_aging (kept keys s))).
  split; [by apply Keep_run |].
  split; [by apply ageFlashData_run |].
  split; [by apply ageFlashData_run |].
  split; [exact Hattr |].
  split.
  { rewrite after_aging_attributes by done. rewrite Hold.
    rewrite decide_False by by apply without_keys_spares. by apply Hattr. }
  rewrite after_aging_attributes by done. rewrite Hold2, Hnew.
  rewrite decide_True; [done |].
  apply ToStringSlice_elem. exists (VStr key). split; [|done].
  apply with_keys_elem. right. by exists key.
Qed.

Lemma Keep_spares_next_round_witness :
  flash_wf flash_session ∧ "x" ∈ ["x"] ∧ ¬ reserved "x"
  ∧ ∃ s1 s2 s3,
      Keep ["x"] flash_session = (Ret tt, s1)
      ∧ ageFlashData s1 = (Ret tt, s2)
      ∧ ageFlashData s2 = (Ret tt, s3)
      ∧ attributes s2 !! "x" = Some (VInt 1)
      ∧ attributes s3 !! "x" = None.
Proof.
  assert (Hr : ¬ reserved "x") by (intros [H|H]; discriminate H).
  assert (Hin : "x" ∈ ["x"]) by (by left).
  split; [apply flash_wf_flash_session |]. split; [exact Hin |]. split; [exact Hr |].
  destruct (Keep_spares_next_round flash_session ["x"] "x"
              flash_wf_flash_session Hin Hr)
    as (s1 & s2 & s3 & H1 & H2 & H3 & _ & H5 & H6).
  exists s1, s2, s3. repeat (split; [assumption |]). assumption.
Defined.

(** X8. Reflash empties the old sequence and moves its keys to the new one:
    no attribute other than the bookkeeping keys changes, none is dropped by
    the next round of aging, and every key that was in either sequence is
    dropped by the round after that. *)
Theorem Reflash_spares_next_round (s : Session) :
  flash_wf s →
  ∃ s1 s2 s3,
    Reflash s = (Ret tt, s1)
    ∧ ageFlashData s1 = (Ret tt, s2)
    ∧ ageFlashData s2 = (Ret tt, s3)
    ∧ flash_seq s1 "_flash.old" = []
    ∧ (∀ k, ¬ reserved k →
         attributes s1 !! k = attributes s !! k
         ∧ attributes s2 !! k = attributes s !! k)
    ∧ (∀ k, ¬ reserved k →
         k ∈ cast.ToStringSlice (flash_seq s "_flash.old")
         ∨ k ∈ cast.ToStringSlice (flash_seq s "_flash.new") →
         attributes s3 !! k = None).
Proof.
  intros Hwf.
  pose proof (wf_reflashed s Hwf) as Hwf1.
  pose proof (wf_after_aging _ Hwf1) as Hwf2.
  destruct (reflashed_facts s) as (Hattr & Hold & Hnew).
  destruct (after_aging_seq (reflashed s)) as [Hold2 _].
  exists (reflashed s), (after_aging (reflashed s)), (after_aging (after_aging (reflashed s))).
  split; [by apply Reflash_run |].
  split; [by apply ageFlashData_run |].
  split; [by apply ageFlashData_run |].
  split; [exact Hold |].
  split.
  { intros k Hr. split; [by apply Hattr |].
    rewrite after_aging_attributes by done. rewrite Hold.
    rewrite decide_False by apply not_elem_of_nil. by apply Hattr. }
  intros k Hr Hin.
  rewrite after_aging_attributes by done. rewrite Hold2, Hnew.
  rewrite decide_True; [done |].
  apply ToStringSlice_elem. destruct Hin as [Hin|Hin].
  - exists (VStr k). split; [|done]. apply with_keys_elem. right. by exists k.
  - apply ToStringSlice_elem in Hin as (i & Hi & <-). exists i. split; [|done].
    apply with_keys_elem. by left.
Qed.

Lemma Reflash_spares_next_round_witness :
  flash_wf flash_session
  ∧ ∃ s1 s2 s3,
      Reflash flash_session = (Ret tt, s1)
      ∧ ageFlashData s1 = (Ret tt, s2)
      ∧ ageFlashData s2 = (Ret tt, s3)
      ∧ flash_seq s1 "_flash.old" = [].
Proof.
  split; [apply flash_wf_flash_session |].
  destruct (Reflash_spares_next_round flash_session flash_wf_flash_session)
    as (s1 & s2 & s3 & H1 & H2 & H3 & H4 & _).
  exists s1, s2, s3. repeat (split; [assumption |]). assumption.
Defined.

Lemma exec_wf (o : op) (s : Session) :
  flash_wf s → tame o → ∃ s', exec o s = (Ret tt, s') ∧ flash_wf s'.
Proof.
  intros Hwf Ht. destruct o as [key v|keys|key def| |key v|key v|keys| |]; cbn [exec tame] in *.
  - exists (Put key v s). split; [done | by apply wf_Put_plain].
  - exists (Forget keys s). split; [done | by apply wf_Forget].
  - exists (Pull key def s).2. split; [done | by apply wf_Pull].
  - exists (Flush s). split; [done | apply wf_Flush].
  - exists (flashed key v s). split; [by apply Flash_run | by apply wf_flashed].
  - exists (nowed key v s). split; [by apply Now_run | by apply wf_nowed].
  - exists (kept keys s). split; [by apply Keep_run | by apply wf_kept].
  - exists (reflashed s). split; [by apply Reflash_run | by apply wf_reflashed].
  - exists (after_aging s). split; [by apply ageFlashData_run | by apply wf_after_aging].
Qed.

(** X9. From a session whose bookkeeping keys are well typed, any sequence
    of Put, Forget, Pull, Flush, Flash, Now, Keep, Reflash and aging in which
    Put, Flash and Now are not given a bookkeeping key runs to the end
    without a panic and leaves the bookkeeping keys well typed. *)
Theorem flash_ops_never_panic (s : Session) (ops : list op) :
  flash_wf s → Forall tame ops →
  ∃ s', run ops s = (Ret tt, s') ∧ flash_wf s'.
Proof.
  intros Hwf Hops. revert s Hwf.
  induction Hops as [|o ops Ho _ IH]; intros s Hwf.
  - by exists s.
  - destruct (exec_wf o s Hwf Ho) as (s1 & Hs1 & Hwf1).
    destruct (IH s1 Hwf1) as (s' & Hs' & Hwf').
    exists s'. split; [|done]. cbn [run]. by rewrite (bind_run _ _ _ _ _ Hs1).
Qed.

Lemma flash_ops_never_panic_witness :
  flash_wf pristine
  ∧ Forall tame [OpFlash "a" (VInt 1); OpAge; OpKeep ["a"]; OpNow "b" VNil;
                 OpReflash; OpPull "_flash.old" []; OpAge]
  ∧ ∃ s', run [OpFlash "a" (VInt 1); OpAge; OpKeep ["a"]; OpNow "b" VNil;
               OpReflash; OpPull "_flash.old" []; OpAge] pristine = (Ret tt, s')
          ∧ flash_wf s'.
Proof.
  assert (Ht : Forall tame [OpFlash "a" (VInt 1); OpAge; OpKeep ["a"]; OpNow "b" VNil;
                            OpReflash; OpPull "_flash.old" []; OpAge]).
  { repeat constructor; intros [H|H]; discriminate H. }
  split; [apply flash_wf_pristine |]. split; [exact Ht |].
  exact (flash_ops_never_panic pristine _ flash_wf_pristine Ht).
Defined.

(** X10. Flash data drain in two rounds: after two rounds of aging with
    nothing flashed in between, both sequences are empty, every key that
    was in either of them is gone from the attributes, and a further round
    changes nothing. *)
Theorem flash_data_drain_in_two_rounds (s : Session) :
  flash_wf s →
  ∃ s1 s2,
    ageFlashData s = (Ret tt, s1)
    ∧ ageFlashData s1 = (Ret tt, s2)
    ∧ flash_idle s2
    ∧ (∀ k, ¬ reserved k →
         k ∈ cast.ToStringSlice (flash_seq s "_flash.old")
         ∨ k ∈ cast.ToStringSlice (flash_seq s "_flash.new") →
         attributes s2 !! k = None)
    ∧ ageFlashData s2 = (Ret tt, s2).
Proof.
  intros Hwf.
  pose proof (wf_after_aging _ Hwf) as Hwf1.
  pose proof (wf_after_aging _ Hwf1) as Hwf2.
  destruct (after_aging_seq s) as [Hold1 Hnew1].
  destruct (after_aging_seq (after_aging s)) as [Hold2 Hnew2].
  assert (Hidle : flash_idle (after_aging (after_aging s))).
  { split; [by rewrite Hold2, Hnew1 | done]. }
  exists (after_aging s), (after_aging (after_aging s)).
  split; [by apply ageFlashData_run |].
  split; [by apply ageFlashData_run |].
  split; [exact Hidle |].
  split.
  - intros k Hr Hin. rewrite after_aging_attributes by done. rewrite Hold1.
    destruct (decide (k ∈ cast.ToStringSlice (flash_seq s "_flash.new"))) as [|Hnn]; [done |].
    destruct Hin as [Hin|Hin]; [|done].
    rewrite after_aging_attributes by done. by rewrite decide_True.
  - rewrite ageFlashData_run by done. by rewrite after_aging_idle.
Qed.

Lemma flash_data_drain_in_two_rounds_witness :
  flash_wf flash_session
  ∧ ∃ s1 s2,
      ageFlashData flash_session = (Ret tt, s1)
      ∧ ageFlashData s1 = (Ret tt, s2)
      ∧ flash_idle s2
      ∧ attributes s2 !! "x" = None ∧ attributes s2 !! "y" = None.
Proof.
  split; [apply flash_wf_flash_session |].
  destruct (flash_data_drain_in_two_rounds flash_session flash_wf_flash_session)
    as (s1 & s2 & H1 & H2 & H3 & H4 & _).
  exists s1, s2. repeat (split; [assumption |]).
  split; apply H4.
  - intros [H|H]; discriminate H.
  - left. vm_compute. by left.
  - intros [H|H]; discriminate H.
  - right. vm_compute. by left.
Defined.

(** ** Sessions in a process: panics, loads and saves *)

Lemma bind_panic {S A B : Type} (c : M S A) (k : A → M S B) (st st' : S) (msg : string) :
  c st = (Panic msg, st') → bind c k st = (Panic msg, st').
Proof. intros H. unfold bind. by rewrite H. Qed.

Lemma bind_blocked {S A B : Type} (c : M S A) (k : A → M S B) (st st' : S) :
  c st = (Blocked, st') → bind c k st = (Blocked, st').
Proof. intros H. unfold bind. by rewrite H. Qed.

Lemma slice_or_absent_dec (s : Session) (key : string) :
  slice_or_absent s key ∨ ¬ slice_or_absent s key.
Proof.
  unfold slice_or_absent. destruct (attributes s !! key) as [[]|]; auto.
Qed.

Lemma flashSlice_ill (s : Session) (key : string) :
  ¬ slice_or_absent s key → ∃ msg, flashSlice key s = (Panic msg, s).
Proof.
  unfold slice_or_absent, flashSlice, bind, get, Get, maps.Get, assertSlice, panic.
  destruct (attributes s !! key) as [[]|]; intros Hill;
    first [by destruct Hill | by exists "interface conversion: interface {} is not []interface {}"].
Qed.

Lemma ageFlashData_ill (s : Session) :
  ¬ flash_wf s → ∃ msg, ageFlashData s = (Panic msg, s).
Proof.
  intros Hill. unfold ageFlashData.
  destruct (slice_or_absent_dec s "_flash.old") as [Ho|Ho].
  - rewrite (bind_run _ _ _ _ _ (flashSlice_wf s "_flash.old" Ho)).
    destruct (slice_or_absent_dec s "_flash.new") as [Hn|Hn]; [by destruct Hill |].
    destruct (flashSlice_ill s "_flash.new" Hn) as [msg Hmsg].
    exists msg. by apply bind_panic.
  - destruct (flashSlice_ill s "_flash.old" Ho) as [msg Hmsg].
    exists msg. by apply bind_panic.
Qed.

Section ProcessFacts.

Context {D : Type} `{!driver.Driver D}.

Implicit Types (st : State (D:=D)) (s : Session).

Local Open Scope list_scope.

Lemma with_self_self st : with_self (self st) st = st.
Proof. by destruct st. Qed.

(** X11. A session that holds something other than a sequence under a
    bookkeeping key cannot be saved: [Save] panics on the type assertion of
    the aging step, before it takes the lock or reaches the driver, and
    leaves the session, the manager and the backend as they were. *)
Theorem Save_panics_on_ill_typed st :
  ¬ flash_wf (self st) → ∃ msg, Save st = (Panic msg, st).
Proof.
  intros Hill. destruct (ageFlashData_ill _ Hill) as [msg Hmsg].
  exists msg. unfold Save. apply bind_panic.
  unfold on_self. rewrite Hmsg. by rewrite with_self_self.
Qed.

Lemma Start_run st c h d blob (m : gmap string value) :
  bound st c h d →
  driver.Read d (id (self st)) = Ok blob →
  securecookie.Decode c (name (self st)) blob = Ok m →
  Start st =
    (Ret true,
     emit (EvRead h (id (self st)))
       (with_self (with_started true
                     (with_attributes (stdmaps.Copy (attributes (self st)) m) (self st))) st)).
Proof.
  intros Hb Hread Hdec. unfold Start, loadSession.
  rewrite (bind_run _ _ st
             (emit (EvRead h (id (self st)))
                (with_self (with_attributes (stdmaps.Copy (attributes (self st)) m) (self st))
                   st)) tt).
  2:{ rewrite (bind_run readFromHandler _ st _ _ (readFromHandler_run st c h d Hb)).
      by rewrite Hread, Hdec. }
  done.
Qed.

(** X12. When the record of the session's ID reads and decodes, [Start]
    returns true and lays the persisted entries over the attributes in
    memory: a persisted key takes the persisted value, any other key keeps
    the value it has.  Nothing else of the session changes but the started
    flag: the loaded keys are not recorded as puts, and the session does not
    become dirty.  The driver is read once and not written. *)
Theorem Start_loads st c h d blob (m : gmap string value) :
  bound st c h d →
  driver.Read d (id (self st)) = Ok blob →
  securecookie.Decode c (name (self st)) blob = Ok m →
  ∃ st',
    Start st = (Ret true, st')
    ∧ (∀ k, attributes (self st') !! k =
              match m !! k with Some v => Some v | None => attributes (self st) !! k end)
    ∧ self st' = with_started true (with_attributes (attributes (self st')) (self st))
    ∧ man st' = man st
    ∧ trace st' = trace st ++ [EvRead h (id (self st))].
Proof.
  intros Hb Hread Hdec. eexists. split; [by eapply Start_run |].
  cbn [self emit with_self attributes with_started with_attributes man trace].
  split; [intros k; apply Copy_lookup | done].
Qed.

(** What a successful save leaves behind. *)
Lemma Save_ok st c h d blob :
  dirty (self st) = true → flash_wf (self st) → bound st c h d → lock_free st →
  securecookie.Encode c (name (self st)) (save_final c d (after_aging (self st))) = Ok blob →
  (driver.Write d (id (self st)) blob).1 = None →
  ∃ st1,
    Save st = (Ret None, st1)
    ∧ self st1 = with_started false (with_dirty false (after_aging (self st)))
    ∧ drivers (man st1) = <[h := (driver.Write d (id (self st)) blob).2]> (drivers (man st))
    ∧ sessionLocks (man st1) =
        (if manager (self st) then <[id (self st) := false]> (sessionLocks (man st))
         else sessionLocks (man st))
    ∧ Codec (man st1) = Codec (man st) ∧ sessionPool (man st1) = sessionPool (man st).
Proof.
  intros Hdirty Hwf Hb Hfree Henc Hw.
  destruct (after_aging_frame (self st)) as (Hid & Hname & _ & _ & Hman & _ & _).
  rewrite (Save_dirty st c h d Hwf Hb Hfree (after_aging_dirty _ Hdirty)).
  unfold Save_result. rewrite Hname, Hid, Henc, Hw, Hman. cbn [fst snd].
  eexists. split; [done |].
  destruct (manager (self st)); destruct (flushed (after_aging (self st)));
    cbn [self man drivers sessionLocks Codec sessionPool unlocked locked wrote emit
         with_man with_self with_drivers with_sessionLocks];
    rewrite ?insert_insert_eq; done.
Qed.

(** X13. The lock around the merge.  For a dirty session bound to its
    manager: when the mutex of its ID is held, [Save] parks after the aging
    step, before any read or write; when it is not, [Save] returns, with
    success or with an error, and in either case the mutex of the ID is
    released and no other entry of the registry has changed. *)
Theorem Save_lock_discipline st c h d :
  manager (self st) = true → dirty (self st) = true →
  flash_wf (self st) → bound st c h d →
  (sessionLocks (man st) !! id (self st) = Some true →
     Save st = (Blocked, with_self (after_aging (self st)) st))
  ∧ (sessionLocks (man st) !! id (self st) ≠ Some true →
       ∃ r st', Save st = (Ret r, st')
                ∧ sessionLocks (man st') = <[id (self st) := false]> (sessionLocks (man st))
                ∧ self st' = match r with
                             | Some _ => after_aging (self st)
                             | None => with_started false
                                         (with_dirty false (after_aging (self st)))
                             end).
Proof.
  intros Hm Hdirty Hwf Hb.
  destruct (after_aging_frame (self st)) as (Hid & Hname & _ & _ & Hman & _ & _).
  pose proof (after_aging_dirty _ Hdirty) as Hd1.
  split.
  - intros Hheld. unfold Save.
    rewrite (bind_run (on_self ageFlashData) _ st (with_self (after_aging (self st)) st) tt).
    2:{ unfold on_self. by rewrite (ageFlashData_run _ Hwf). }
    rewrite (bind_run get _ _ _ _ eq_refl).
    cbn [self with_self]. rewrite Hd1, Hman, Hm. cbn [negb].
    apply bind_blocked. unfold LockSession, GetID. cbn [man with_self].
    by rewrite Hid, Hheld.
  - intros Hfree.
    rewrite (Save_dirty st c h d Hwf Hb (fun _ => Hfree) Hd1).
    unfold Save_result. rewrite Hman, Hm, Hid, Hname.
    destruct (securecookie.Encode c (name (self st)) _) as [blob|e].
    + destruct (driver.Write d (id (self st)) blob) as [[e|] d'];
        eexists _, _; (split; [done |]);
        destruct (flushed (after_aging (self st)));
        cbn [self man sessionLocks unlocked locked wrote emit fst snd
             with_man with_self with_drivers with_sessionLocks];
        by rewrite insert_insert_eq.
    + eexists _, _. split; [done |].
      destruct (flushed (after_aging (self st)));
        cbn [self man sessionLocks unlocked locked wrote emit fst snd
             with_man with_self with_drivers with_sessionLocks];
        by rewrite insert_insert_eq.
Qed.

End ProcessFacts.

Lemma Save_panics_on_ill_typed_witness :
  ¬ flash_wf (self ill_typed_state)
  ∧ ∃ msg, Save ill_typed_state = (Panic msg, ill_typed_state).
Proof.
  assert (Hill : ¬ flash_wf (self ill_typed_state)).
  { intros [_ Hn]. vm_compute in Hn. exact Hn. }
  split; [exact Hill | exact (Save_panics_on_ill_typed ill_typed_state Hill)].
Defined.

Lemma Start_loads_witness :
  bound unstarted_state demo_codec "mock" backend_seed
  ∧ driver.Read backend_seed (id (self unstarted_state)) = Ok "session|seed=1;"
  ∧ securecookie.Decode demo_codec (name (self unstarted_state)) "session|seed=1;"
    = Ok seed_attrs
  ∧ ∃ st', Start unstarted_state = (Ret true, st')
           ∧ attributes (self st') !! "seed" = Some (VInt 1).
Proof.
  assert (Hb : bound unstarted_state demo_codec "mock" backend_seed)
    by (by apply demo_bound).
  assert (Hr : driver.Read backend_seed (id (self unstarted_state)) = Ok "session|seed=1;")
    by (vm_compute; reflexivity).
  assert (Hd : securecookie.Decode demo_codec (name (self unstarted_state)) "session|seed=1;"
               = Ok seed_attrs)
    by (vm_compute; reflexivity).
  split; [exact Hb |]. split; [exact Hr |]. split; [exact Hd |].
  destruct (Start_loads unstarted_state demo_codec "mock" backend_seed _ _ Hb Hr Hd)
    as (st' & Hrun & Hattr & _).
  exists st'. split; [exact Hrun |]. rewrite Hattr. reflexivity.
Defined.

Lemma Save_lock_discipline_witness :
  manager (self failing_state) = true
  ∧ dirty (self failing_state) = true
  ∧ flash_wf (self failing_state)
  ∧ bound failing_state demo_codec "mock" backend_failing
  ∧ ∃ r st', Save failing_state = (Ret r, st')
             ∧ sessionLocks (man st') = <[demo_id := false]> ∅.
Proof.
  assert (Hwf : flash_wf (self failing_state)) by (split; vm_compute; exact I).
  assert (Hb : bound failing_state demo_codec "mock" backend_failing)
    by (by apply demo_bound).
  split; [reflexivity |]. split; [reflexivity |]. split; [exact Hwf |]. split; [exact Hb |].
  destruct (Save_lock_discipline failing_state demo_codec "mock" backend_failing
              eq_refl eq_refl Hwf Hb) as [_ Hfree].
  destruct Hfree as (r & st' & Hrun & Hlocks & _).
  { cbn. by rewrite lookup_empty. }
  exists r, st'. split; [exact Hrun | exact Hlocks].
Defined.

(** ** Save and Start against the in-memory driver *)

(** X14. What a save persisted is what the next request loads.  After a
    successful save against the in-memory driver, a session that starts with
    the same ID, name, codec and driver and no attributes of its own holds
    exactly the attribute set that the save encoded, provided the codec
    decodes what it encoded. *)
Theorem Save_then_Start_round_trip (st : State) c h (d : memoryDriver) (blob : string)
    (next : Session) :
  dirty (self st) = true → flash_wf (self st) → bound st c h d → lock_free st →
  failWrite d = false →
  let final := save_final c d (after_aging (self st)) in
  securecookie.Encode c (name (self st)) final = Ok blob →
  securecookie.Decode c (name (self st)) blob = Ok final →
  id next = id (self st) → name next = name (self st) →
  codec next = Some c → driver next = Some h → attributes next = ∅ →
  ∃ st1 st2,
    Save st = (Ret None, st1)
    ∧ dirty (self st1) = false
    ∧ Start (with_self next st1) = (Ret true, st2)
    ∧ attributes (self st2) = final.
Proof.
  intros Hdirty Hwf Hb Hfree Hfw final Henc Hdec Hid Hname Hcodec Hdrv Hattrs.
  assert (Hw : driver.Write d (id (self st)) blob
               = (None, mkMemoryDriver (<[id (self st) := blob]> (data d)) false)).
  { cbn [driver.Write memoryDriver_Driver]. by rewrite Hfw. }
  destruct (Save_ok st c h d blob Hdirty Hwf Hb Hfree Henc) as (st1 & Hrun & Hself & Hdrvs & _).
  { by rewrite Hw. }
  rewrite Hw in Hdrvs. cbn [snd] in Hdrvs.
  set (d' := mkMemoryDriver (<[id (self st) := blob]> (data d)) false) in *.
  assert (Hb1 : bound (with_self next st1) c h d').
  { split; [exact Hcodec |]. split; [exact Hdrv |].
    cbn [man with_self]. rewrite Hdrvs. apply lookup_insert_eq. }
  assert (Hr : driver.Read d' (id (self (with_self next st1))) = Ok blob).
  { cbn [self with_self driver.Read memoryDriver_Driver data d']. rewrite Hid.
    by rewrite lookup_insert_eq. }
  assert (Hd : securecookie.Decode c (name (self (with_self next st1))) blob = Ok final).
  { cbn [self with_self]. by rewrite Hname. }
  eexists st1, _. split; [exact Hrun |].
  split; [by rewrite Hself |].
  split; [exact (Start_run _ c h d' blob final Hb1 Hr Hd) |].
  cbn [self emit with_self attributes with_started with_attributes].
  rewrite Hattrs. apply map_eq. intros k. rewrite Copy_lookup, lookup_empty.
  by destruct (final !! k).
Qed.

Lemma workers_bound : bound workers_state merge_codec "mock" backend_seed.
Proof. split; [done |]. split; [done |]. apply lookup_insert_eq. Qed.

Lemma workers_lock_free : lock_free workers_state.
Proof. intros _. cbn. by rewrite lookup_empty. Qed.

Lemma worker_wf (key : string) (n : Z) : flash_wf (worker key n) ∨ reserved key.
Proof.
  destruct (decide (key = "_flash.old")) as [->|Ho]; [right; by left |].
  destruct (decide (key = "_flash.new")) as [->|Hn]; [right; by right |].
  left. apply wf_Put_plain; [by intros [?|?] |]. split; vm_compute; exact I.
Qed.

Lemma worker0_wf : flash_wf (self workers_state).
Proof. split; vm_compute; exact I. Qed.

Lemma Save_then_Start_round_trip_witness :
  dirty (self workers_state) = true
  ∧ flash_wf (self workers_state)
  ∧ bound workers_state merge_codec "mock" backend_seed
  ∧ lock_free workers_state
  ∧ securecookie.Decode merge_codec "session" "session|k0=0;seed=1;"
    = Ok (<["k0" := VInt 0]> seed_attrs)
  ∧ ∃ st1 st2,
      Save workers_state = (Ret None, st1)
      ∧ Start (with_self next_request st1) = (Ret true, st2)
      ∧ attributes (self st2) = <["k0" := VInt 0]> seed_attrs.
Proof.
  assert (Hdec : securecookie.Decode merge_codec "session" "session|k0=0;seed=1;"
                 = Ok (<["k0" := VInt 0]> seed_attrs)) by (vm_compute; reflexivity).
  split; [reflexivity |]. split; [exact worker0_wf |]. split; [exact workers_bound |].
  split; [exact workers_lock_free |]. split; [exact Hdec |].
  assert (Henc : securecookie.Encode merge_codec (name (self workers_state))
                   (save_final merge_codec backend_seed (after_aging (self workers_state)))
                 = Ok "session|k0=0;seed=1;") by (vm_compute; reflexivity).
  assert (Hdec' : securecookie.Decode merge_codec (name (self workers_state))
                    "session|k0=0;seed=1;"
                  = Ok (save_final merge_codec backend_seed
                          (after_aging (self workers_state)))) by (vm_compute; reflexivity).
  pose proof (Save_then_Start_round_trip workers_state merge_codec "mock" backend_seed
                "session|k0=0;seed=1;" next_request
                eq_refl worker0_wf workers_bound workers_lock_free eq_refl
                Henc Hdec' eq_refl eq_refl eq_refl eq_refl eq_refl) as Hrt.
  destruct Hrt as (st1 & st2 & Hsave & _ & Hstart & Hattrs).
  exists st1, st2. split; [exact Hsave |]. split; [exact Hstart |].
  rewrite Hattrs. vm_compute. reflexivity.
Defined.

(** X15. Two requests on one session ID do not lose each other's writes.
    Two sessions with the same ID and name are loaded, neither flushed nor
    holding flash data to age, and each changes keys; the first saves, then the second saves, against the
    in-memory driver with a codec that decodes what the first save encoded.
    The record under the ID then holds the encoding of: the persisted state
    before both, changed by the deltas of the first, changed by the deltas of
    the second.  A key put by the second has the second's value; a key put by
    the first that the second neither put nor forgot has the first's value;
    a key that neither touched is as it was persisted. *)
Theorem Save_twice_merges (st : State) c h (d : memoryDriver) (sB : Session)
    (blobA blobB : string) :
  let sA := self st in
  dirty sA = true → flushed sA = false → flash_wf sA → flash_idle sA → manager sA = true →
  dirty sB = true → flushed sB = false → flash_wf sB → flash_idle sB → manager sB = true →
  id sB = id sA → name sB = name sA → codec sB = Some c → driver sB = Some h →
  bound st c h d → lock_free st → failWrite d = false →
  let latest := latest_of c (name sA) (driver.Read d (id sA)) in
  let finalA := merged latest (puts sA) (forgets sA) in
  let finalB := merged finalA (puts sB) (forgets sB) in
  securecookie.Encode c (name sA) finalA = Ok blobA →
  securecookie.Decode c (name sA) blobA = Ok finalA →
  securecookie.Encode c (name sA) finalB = Ok blobB →
  ∃ st1 st2 d2,
    Save st = (Ret None, st1)
    ∧ Save (with_self sB st1) = (Ret None, st2)
    ∧ drivers (man st2) !! h = Some d2
    ∧ driver.Read d2 (id sA) = Ok blobB
    ∧ (∀ key v, puts sB !! key = Some v → finalB !! key = Some v)
    ∧ (∀ key v, puts sA !! key = Some v → puts sB !! key = None → key ∉ forgets sB →
         finalB !! key = Some v)
    ∧ (∀ key, puts sA !! key = None → key ∉ forgets sA →
              puts sB !! key = None → key ∉ forgets sB →
         finalB !! key = latest !! key).
Proof.
  intros sA HdA HfA HwfA HiA HmA HdB HfB HwfB HiB HmB Hid Hname Hcodec Hdrv
    Hb Hfree Hfw latest finalA finalB HencA HdecA HencB.
  assert (Hw : ∀ (d0 : memoryDriver) blob, failWrite d0 = false →
                 driver.Write d0 (id sA) blob
                 = (None, mkMemoryDriver (<[id sA := blob]> (data d0)) false)).
  { intros d0 blob Hd0. cbn [driver.Write memoryDriver_Driver]. by rewrite Hd0. }
  (* the first save *)
  assert (HfinA : save_final c d (after_aging sA) = finalA).
  { rewrite after_aging_idle by done. unfold save_final. fold sA. rewrite HfA.
    apply merge_merged. }
  destruct (Save_ok st c h d blobA HdA HwfA Hb Hfree) as (st1 & Hrun1 & _ & Hdrvs1 & Hlocks1 & _).
  { fold sA. by rewrite HfinA. }
  { fold sA. by rewrite Hw. }
  fold sA in Hdrvs1, Hlocks1. rewrite Hw in Hdrvs1 by done. cbn [snd] in Hdrvs1.
  rewrite HmA in Hlocks1.
  set (dA := mkMemoryDriver (<[id sA := blobA]> (data d)) false) in *.
  (* the second save *)
  set (stB := with_self sB st1).
  assert (HbB : bound stB c h dA).
  { split; [exact Hcodec |]. split; [exact Hdrv |].
    unfold stB. cbn [man with_self]. rewrite Hdrvs1. apply lookup_insert_eq. }
  assert (HfreeB : lock_free stB).
  { intros _. unfold stB. cbn [man self with_self]. rewrite Hlocks1, Hid.
    by rewrite lookup_insert_eq. }
  assert (HfinB : save_final c dA (after_aging sB) = finalB).
  { rewrite after_aging_idle by done. unfold save_final. rewrite HfB, Hid, Hname.
    cbn [driver.Read memoryDriver_Driver data dA]. rewrite lookup_insert_eq.
    unfold latest_of. rewrite HdecA. apply merge_merged. }
  destruct (Save_ok stB c h dA blobB HdB HwfB HbB HfreeB) as (st2 & Hrun2 & _ & Hdrvs2 & _).
  { unfold stB. cbn [self with_self]. by rewrite HfinB, Hname. }
  { unfold stB. cbn [self with_self]. rewrite Hid. by rewrite Hw. }
  unfold stB in Hdrvs2. cbn [self with_self] in Hdrvs2.
  rewrite Hid, Hw in Hdrvs2 by done. cbn [snd] in Hdrvs2.
  exists st1, st2, (mkMemoryDriver (<[id sA := blobB]> (data dA)) false).
  split; [exact Hrun1 |]. split; [exact Hrun2 |].
  split; [rewrite Hdrvs2; apply lookup_insert_eq |].
  split; [cbn [driver.Read memoryDriver_Driver data]; by rewrite lookup_insert_eq |].
  split; [|split].
  - intros key v Hp. unfold finalB. by rewrite merged_lookup, Hp.
  - intros key v HpA HpB HnB. unfold finalB, finalA.
    rewrite merged_lookup, HpB. rewrite decide_False by done.
    by rewrite merged_lookup, HpA.
  - intros key HpA HnA HpB HnB. unfold finalB, finalA.
    rewrite merged_lookup, HpB. rewrite decide_False by done.
    rewrite merged_lookup, HpA. by rewrite decide_False by done.
Qed.

Lemma Save_twice_merges_witness :
  bound workers_state merge_codec "mock" backend_seed
  ∧ lock_free workers_state
  ∧ flash_wf (worker "k0" 0) ∧ flash_wf (worker "k1" 1)
  ∧ ∃ st1 st2 d2,
      Save workers_state = (Ret None, st1)
      ∧ Save (with_self (worker "k1" 1) st1) = (Ret None, st2)
      ∧ drivers (man st2) !! "mock" = Some d2
      ∧ driver.Read d2 demo_id = Ok "session|k1=1;k0=0;seed=1;".
Proof.
  assert (Hwf1 : flash_wf (worker "k1" 1)) by (split; vm_compute; exact I).
  split; [exact workers_bound |]. split; [exact workers_lock_free |].
  split; [exact worker0_wf |]. split; [exact Hwf1 |].
  assert (HiA : flash_idle (worker "k0" 0)) by (split; vm_compute; reflexivity).
  assert (HiB : flash_idle (worker "k1" 1)) by (split; vm_compute; reflexivity).
  assert (HencA : securecookie.Encode merge_codec (name (self workers_state))
                    (merged (latest_of merge_codec (name (self workers_state))
                               (driver.Read backend_seed (id (self workers_state))))
                       (puts (self workers_state)) (forgets (self workers_state)))
                  = Ok "session|k0=0;seed=1;") by (vm_compute; reflexivity).
  assert (HdecA : securecookie.Decode merge_codec (name (self workers_state))
                    "session|k0=0;seed=1;"
                  = Ok (merged (latest_of merge_codec (name (self workers_state))
                                  (driver.Read backend_seed (id (self workers_state))))
                          (puts (self workers_state)) (forgets (self workers_state))))
    by (vm_compute; reflexivity).
  assert (HencB : securecookie.Encode merge_codec (name (self workers_state))
                    (merged
                       (merged (latest_of merge_codec (name (self workers_state))
                                  (driver.Read backend_seed (id (self workers_state))))
                          (puts (self workers_state)) (forgets (self workers_state)))
                       (puts (worker "k1" 1)) (forgets (worker "k1" 1)))
                  = Ok "session|k1=1;k0=0;seed=1;") by (vm_compute; reflexivity).
  pose proof (Save_twice_merges workers_state merge_codec "mock" backend_seed
                (worker "k1" 1) "session|k0=0;seed=1;" "session|k1=1;k0=0;seed=1;"
                eq_refl eq_refl worker0_wf HiA eq_refl
                eq_refl eq_refl Hwf1 HiB eq_refl
                eq_refl eq_refl eq_refl eq_refl
                workers_bound workers_lock_free eq_refl HencA HdecA HencB) as Htw.
  destruct Htw as (st1 & st2 & d2 & H1 & H2 & H3 & H4 & _).
  exists st1, st2, d2. repeat (split; [assumption |]). assumption.
Defined.

(** ** The manager: drivers, sessions and the pool *)

Section ManagerMore.

Context {D : Type} `{!driver.Driver D}.

Implicit Types (st : State (D:=D)) (m : Manager (D:=D)) (s : Session).

Lemma with_man_pool st :
  with_man (with_sessionPool (sessionPool (man st)) (man st)) st = st.
Proof. destruct st as [s [] t cu tr]. done. Qed.

Lemma BuildSession_run st (name : string) (drv : list string) (h : string) :
  Manager_driver (man st) drv = Ok h →
  ∃ s0 st1,
    AcquireSession st = (Ret s0, st1)
    ∧ BuildSession name drv st =
        (Ret (Ok (with_manager true (with_driver (Some h)
                    (with_codec (Some (Codec (man st)))
                       (with_name name
                          (with_id (nanoid.generate alphabet (tape st) (cursor st) 32) s0)))))),
         with_cursor (cursor st + 32) st1).
Proof.
  intros Hd.
  assert (∃ s0 st1, AcquireSession st = (Ret s0, st1)
                    ∧ tape st1 = tape st ∧ cursor st1 = cursor st
                    ∧ Codec (man st1) = Codec (man st))
    as (s0 & st1 & Hacq & Ht & Hc & Hcod).
  { unfold AcquireSession. rewrite (bind_run get _ st st st) by done.
    destruct (sessionPool (man st)) as [|s0 pool]; eexists _, _; (split; [done |]); done. }
  exists s0, st1. split; [exact Hacq |]. unfold BuildSession.
  rewrite (bind_run get _ st st st) by done. rewrite Hd.
  rewrite (bind_run _ _ _ _ _ Hacq).
  unfold generateSessionID, nanoid.MustCustomASCII, bind, get, ret.
  rewrite Ht, Hc. cbn [man with_cursor]. by rewrite Hcod.
Qed.

Lemma Extend_run m (n : string) (handler : option D) :
  drivers m !! n = None → (0 < minutes (GcInterval m))%Z →
  Extend n handler m =
    (Ret None,
     with_drivers (match handler with
                   | Some d => <[n:=d]> (drivers m)
                   | None => delete n (drivers m)
                   end) m).
Proof.
  intros Hfree Hpos. unfold Extend.
  rewrite (bind_run get _ m m m) by done. rewrite Hfree.
  unfold bind, modify, startGcTimer, ret. cbn [GcInterval with_drivers].
  by rewrite bool_decide_eq_false_2 by lia.
Qed.

Lemma Extend_panics m (n : string) (handler : option D) :
  drivers m !! n = None → (minutes (GcInterval m) ≤ 0)%Z →
  Extend n handler m =
    (Panic "non-positive interval for NewTicker",
     with_drivers (match handler with
                   | Some d => <[n:=d]> (drivers m)
                   | None => delete n (drivers m)
                   end) m).
Proof.
  intros Hfree Hneg. unfold Extend.
  rewrite (bind_run get _ m m m) by done. rewrite Hfree.
  unfold bind, modify, startGcTimer, ret. cbn [GcInterval with_drivers].
  by rewrite bool_decide_eq_true_2 by done.
Qed.

Lemma Extend_taken m (n : string) (handler : option D) (d0 : D) :
  drivers m !! n = Some d0 →
  Extend n handler m = (Ret (Some ("driver [" ++ n ++ "] already exists")), m).
Proof.
  intros Hn. unfold Extend. rewrite (bind_run get _ m m m) by done. by rewrite Hn.
Qed.

(** X16. With a sweep interval that is positive, a driver registered with
    [Extend] under a free, non-empty name is the one that [BuildSession]
    binds a session to when asked for that name; the other registrations are
    left as they are. *)
Theorem Extend_then_BuildSession st (n name : string) (d : D) :
  drivers (man st) !! n = None → n ≠ "" → (0 < minutes (GcInterval (man st)))%Z →
  ∃ st1 s st2,
    on_man (Extend n (Some d)) st = (Ret None, st1)
    ∧ drivers (man st1) = <[n := d]> (drivers (man st))
    ∧ BuildSession name [n] st1 = (Ret (Ok s), st2)
    ∧ driver s = Some n ∧ codec s = Some (Codec (man st)) ∧ GetName s = name
    ∧ drivers (man st2) !! n = Some d.
Proof.
  intros Hfree Hn Hpos.
  set (st1 := with_man (with_drivers (<[n:=d]> (drivers (man st))) (man st)) st).
  assert (Hext : on_man (Extend n (Some d)) st = (Ret None, st1)).
  { unfold on_man. by rewrite (Extend_run _ n (Some d) Hfree Hpos). }
  assert (Hres : Manager_driver (man st1) [n] = Ok n).
  { apply (Manager_driver_registered _ n d Hn). apply lookup_insert_eq. }
  destruct (BuildSession_run st1 name [n] n Hres) as (s0 & st2 & Hacq & Hrun).
  eexists st1, _, _. split; [exact Hext |]. split; [done |]. split; [exact Hrun |].
  split; [done |]. split; [done |]. split; [done |].
  cbn [man with_cursor]. revert Hacq. unfold AcquireSession.
  rewrite (bind_run get _ st1 st1 st1) by done.
  destruct (sessionPool (man st1)) as [|s1 pool].
  - intros [= _ <-]. apply lookup_insert_eq.
  - intros [= _ <-]. apply lookup_insert_eq.
Qed.

(** X17. Registering under a free name.  With a sweep interval that is
    positive, [Extend] registers the handler and returns nil, a second
    [Extend] under the same name returns the error naming it and changes
    nothing, so the first handler stays, and every other name is as it was.
    With a sweep interval that is not positive (it is 0 when the option is
    left unset), [Extend] panics when it starts the sweep timer, after it has
    registered the handler.  A nil handler is accepted and registers nothing
    that resolves: the name stays free for a later [Extend]. *)
Theorem Extend_keeps_first st (n : string) (d1 d2 : D) :
  drivers (man st) !! n = None →
  ((0 < minutes (GcInterval (man st)))%Z →
     ∃ st1,
       on_man (Extend n (Some d1)) st = (Ret None, st1)
       ∧ on_man (Extend n (Some d2)) st1
         = (Ret (Some ("driver [" ++ n ++ "] already exists")), st1)
       ∧ drivers (man st1) !! n = Some d1
       ∧ (∀ k, k ≠ n → drivers (man st1) !! k = drivers (man st) !! k))
  ∧ ((minutes (GcInterval (man st)) ≤ 0)%Z →
       ∃ msg st1,
         on_man (Extend n (Some d1)) st = (Panic msg, st1)
         ∧ drivers (man st1) !! n = Some d1)
  ∧ ((0 < minutes (GcInterval (man st)))%Z →
       ∃ st1 st2,
         on_man (Extend n None) st = (Ret None, st1)
         ∧ drivers (man st1) = drivers (man st)
         ∧ on_man (Extend n (Some d2)) st1 = (Ret None, st2)
         ∧ drivers (man st2) !! n = Some d2).
Proof.
  intros Hfree. split; [|split].
  - intros Hpos.
    set (st1 := with_man (with_drivers (<[n:=d1]> (drivers (man st))) (man st)) st).
    assert (Hn : drivers (man st1) !! n = Some d1) by apply lookup_insert_eq.
    exists st1. split.
    { unfold on_man. by rewrite (Extend_run _ n (Some d1) Hfree Hpos). }
    split.
    { unfold on_man. by rewrite (Extend_taken _ n (Some d2) d1 Hn). }
    split; [exact Hn |].
    intros k Hk. unfold st1. cbn [man with_man drivers with_drivers].
    by rewrite lookup_insert_ne.
  - intros Hneg. eexists _, _. split.
    { unfold on_man. by rewrite (Extend_panics _ n (Some d1) Hfree Hneg). }
    cbn [man with_man drivers with_drivers]. apply lookup_insert_eq.
  - intros Hpos.
    set (st1 := with_man (with_drivers (delete n (drivers (man st))) (man st)) st).
    assert (Hd : drivers (man st1) = drivers (man st)).
    { unfold st1. cbn [man with_man drivers with_drivers]. by apply delete_id. }
    assert (Hfree1 : drivers (man st1) !! n = None) by (by rewrite Hd).
    eexists st1, _. split.
    { unfold on_man. by rewrite (Extend_run _ n None Hfree Hpos). }
    split; [exact Hd |]. split.
    { unfold on_man. by rewrite (Extend_run _ n (Some d2) Hfree1 Hpos). }
    cbn [man with_man drivers with_drivers]. apply lookup_insert_eq.
Qed.

(** X18. [BuildSession] resolves the first driver name given, or the name
    default when none is given.  When that name is empty, or no driver is
    registered under it, it returns an error that says which, and the
    process is as before: no session has left the pool and no ID has been
    drawn.  A driver registered under the empty name is never resolved. *)
Theorem BuildSession_rejects st (name : string) (drv : list string) :
  let n := match drv with n :: _ => n | [] => "default" end in
  n = "" ∨ drivers (man st) !! n = None →
  BuildSession name drv st =
    (Ret (Err (if bool_decide (n = "") then "driver is not set"
               else "driver [" ++ n ++ "] not supported")), st).
Proof.
  intros n Hn. unfold BuildSession.
  rewrite (bind_run get _ st st st) by done.
  unfold Manager_driver. fold n. case_bool_decide as He; [done |].
  destruct Hn as [Hn|Hn]; [done |]. by rewrite Hn.
Qed.

(** X19. A manager is created with no session pooled and no lock
    registered.  With the default driver enabled and a sweep interval that
    is positive, the driver is registered under the name default, and a
    session built without a driver name is bound to it and to the manager's
    codec; with a sweep interval that is not positive (it is 0 when the
    option is left unset), [NewManager] panics when it starts the sweep timer
    of the default driver.  With the default driver disabled no timer is
    started and no driver is registered, whatever the interval, and building
    without a name fails, saying that the driver default is not supported.
    When the codec cannot be created, no manager is returned. *)
Theorem NewManager_default_driver (c : securecookie.Codec) (lifetime gcInterval : Z)
    (d : D) (e : error) :
  ((0 < minutes gcInterval)%Z →
     ∃ m, NewManager (Ok c) lifetime gcInterval (Some d) = Ret (Ok m)
          ∧ drivers m !! "default" = Some d
          ∧ sessionPool m = [] ∧ sessionLocks m = ∅
          ∧ ∀ st name, man st = m →
              ∃ s st', BuildSession name [] st = (Ret (Ok s), st')
                       ∧ driver s = Some "default" ∧ codec s = Some c
                       ∧ attributes s = ∅ ∧ String.length (id s) = 32)
  ∧ ((minutes gcInterval ≤ 0)%Z →
       NewManager (Ok c) lifetime gcInterval (Some d)
       = Panic "non-positive interval for NewTicker")
  ∧ (∃ m, NewManager (D:=D) (Ok c) lifetime gcInterval None = Ret (Ok m)
          ∧ drivers m = ∅ ∧ sessionPool m = [] ∧ sessionLocks m = ∅
          ∧ ∀ st name, man st = m →
              BuildSession name [] st
              = (Ret (Err "driver [default] not supported"), st))
  ∧ NewManager (Err e) lifetime gcInterval (Some d) = Ret (Err e)
  ∧ NewManager (D:=D) (Err e) lifetime gcInterval None = Ret (Err e).
Proof.
  split; [|split; [|split; [|split; done]]].
  - intros Hpos. unfold NewManager, createDefaultDriver.
    rewrite (Extend_run _ "default" (Some d)) by (done || apply lookup_empty).
    eexists. split; [done |]. split; [apply lookup_insert_eq |].
    split; [done |]. split; [done |].
    intros st name Hm.
    assert (Hres : Manager_driver (man st) [] = Ok "default").
    { unfold Manager_driver. rewrite bool_decide_eq_false_2 by done.
      rewrite Hm. cbn [drivers with_drivers]. by rewrite lookup_insert_eq. }
    destruct (BuildSession_run st name [] "default" Hres) as (s0 & st1 & Hacq & Hrun).
    revert Hacq Hrun. unfold AcquireSession.
    rewrite (bind_run get _ st st st) by done. rewrite Hm.
    cbn [sessionPool with_drivers Codec]. intros [= <- <-] Hrun.
    eexists _, _. split; [exact Hrun |].
    split; [done |]. split; [done |]. split; [done |]. apply generate_length.
  - intros Hneg. unfold NewManager, createDefaultDriver.
    by rewrite (Extend_panics _ "default" (Some d)) by (done || apply lookup_empty).
  - eexists. split; [done |]. split; [done |]. split; [done |]. split; [done |].
    intros st name Hm. unfold BuildSession.
    rewrite (bind_run get _ st st st) by done.
    unfold Manager_driver. rewrite bool_decide_eq_false_2 by done.
    rewrite Hm. cbn [drivers]. by rewrite lookup_empty.
Qed.

(** X20. A session handed back to the pool is wiped first: whatever it
    held, the next acquisition returns a blank session (no ID, name or
    attributes, no deltas, no codec, driver or manager, every flag down) and
    leaves the pool as it was before the release, and a session then built
    from it carries no data of the released one. *)
Theorem released_session_comes_back_blank st s :
  ∃ st1,
    ReleaseSession s st = (Ret tt, st1)
    ∧ AcquireSession st1 = (Ret pristine, st)
    ∧ ∀ name drv h, Manager_driver (man st) drv = Ok h →
        BuildSession name drv st1 =
          (Ret (Ok (mkSession (nanoid.generate alphabet (tape st) (cursor st) 32) name ∅
                      (Some (Codec (man st))) (Some h) true false false false ∅ ∅)),
           with_cursor (cursor st + 32) st).
Proof.
  eexists. split; [done |].
  assert (Hacq : AcquireSession
                   (with_man (with_sessionPool (reset s :: sessionPool (man st)) (man st)) st)
                 = (Ret pristine, st)).
  { unfold AcquireSession. rewrite (bind_run get _ _ _ _ eq_refl).
    cbn [man with_man sessionPool with_sessionPool].
    unfold bind, modify, ret. rewrite reset_pristine. f_equal.
    destruct st as [s0 [] t cu tr]. done. }
  split; [exact Hacq |].
  intros name drv h Hd.
  destruct (BuildSession_run
              (with_man (with_sessionPool (reset s :: sessionPool (man st)) (man st)) st)
              name drv h) as (s0 & st2 & Hacq' & Hrun).
  { unfold Manager_driver in *. exact Hd. }
  rewrite Hacq in Hacq'. injection Hacq' as <- <-. exact Hrun.
Qed.

End ManagerMore.

(** ** Rotating the session ID *)

Section RotateFacts.

Context {D : Type} `{!driver.Driver D}.

Implicit Types (st : State (D:=D)) (s : Session).

Lemma driver_Destroy_run st c h d (sid : string) :
  bound st c h d →
  driver_Destroy sid st =
    (Ret (driver.Destroy d sid).1,
     emit (EvDestroy h sid)
       (with_man (with_drivers (<[h := (driver.Destroy d sid).2]> (drivers (man st)))
                    (man st)) st)).
Proof.
  intros (Hc & Hd & Hh). unfold driver_Destroy.
  rewrite (bind_run get _ st st st) by done.
  rewrite Hd, Hh. by destruct (driver.Destroy d sid).
Qed.

(** The session after its ID has been rotated. *)
Lemma migrate_keep st (rest : list bool) :
  migrate (false :: rest) st = migrate [] st
  ∧ migrate [] st =
      (Ret None,
       with_self (with_flushed true (with_dirty true
                    (with_id (nanoid.generate alphabet (tape st) (cursor st) 32) (self st))))
         (with_cursor (cursor st + 32) st)).
Proof. split; reflexivity. Qed.

(** X21. [Regenerate] without destroy (no argument, or false first) never
    reaches the driver: it gives the session a fresh ID of 32 characters,
    keeps the attributes and the deltas, and marks the session dirty and
    flushed, so that the next save writes the attributes whole under the new
    ID; the record under the old ID is left in the store. *)
Theorem Regenerate_keeps_data st (rest : list bool) :
  ∃ st',
    Regenerate [] st = (Ret None, st')
    ∧ Regenerate (false :: rest) st = (Ret None, st')
    ∧ String.length (id (self st')) = 32
    ∧ self st' = with_flushed true (with_dirty true (with_id (id (self st')) (self st)))
    ∧ overwriting (self st')
    ∧ man st' = man st ∧ trace st' = trace st.
Proof.
  destruct (migrate_keep st rest) as [Hf Hrun]. unfold Regenerate.
  eexists. split; [exact Hrun |]. split; [by rewrite Hf |].
  cbn [self with_self with_cursor id with_id with_flushed with_dirty man trace].
  split; [apply generate_length | done].
Qed.

(** X22. [Regenerate] with destroy asks the driver to destroy the record of
    the current ID, once.  When that fails, the error is returned and the
    session is untouched: same ID, not marked dirty or flushed.  When it
    succeeds, the session gets a fresh ID of 32 characters, keeps its
    attributes and deltas, and is marked dirty and flushed. *)
Theorem Regenerate_destroys_old_record st c h d (rest : list bool) :
  bound st c h d →
  ∃ st',
    Regenerate (true :: rest) st = (Ret (driver.Destroy d (id (self st))).1, st')
    ∧ trace st' = (trace st ++ [EvDestroy h (id (self st))])%list
    ∧ drivers (man st') = <[h := (driver.Destroy d (id (self st))).2]> (drivers (man st))
    ∧ self st' =
        match (driver.Destroy d (id (self st))).1 with
        | Some _ => self st
        | None => with_flushed true (with_dirty true
                    (with_id (nanoid.generate alphabet (tape st) (cursor st) 32) (self st)))
        end
    ∧ ((driver.Destroy d (id (self st))).1 = None → String.length (id (self st')) = 32).
Proof.
  intros Hb. unfold Regenerate, migrate.
  rewrite (bind_run _ _ st _ _
             (eq_trans (bind_run get _ st st st eq_refl)
                       (driver_Destroy_run st c h d (GetID (self st)) Hb))).
  unfold GetID. destruct (driver.Destroy d (id (self st))).1 as [e|].
  - eexists. split; [done |]. done.
  - eexists. split; [done |].
    cbn [self with_self with_cursor emit with_man id with_id with_flushed with_dirty
         man trace drivers with_drivers generateSessionID nanoid.MustCustomASCII].
    split; [done |]. split; [done |]. split; [done |]. intros _. apply generate_length.
Qed.

(** X23. [Invalidate] empties the session in memory first, then asks the
    driver to destroy the record of the current ID.  Whether that succeeds
    or not, the attributes and the deltas are empty afterwards and the
    session is dirty and flushed; the ID is replaced by a fresh one only when
    the destroy succeeded, and the destroy error is returned otherwise. *)
Theorem Invalidate_spec st c h d :
  bound st c h d →
  ∃ st',
    Invalidate st = (Ret (driver.Destroy d (id (self st))).1, st')
    ∧ attributes (self st') = ∅ ∧ puts (self st') = ∅ ∧ forgets (self st') = ∅
    ∧ overwriting (self st')
    ∧ trace st' = (trace st ++ [EvDestroy h (id (self st))])%list
    ∧ drivers (man st') = <[h := (driver.Destroy d (id (self st))).2]> (drivers (man st))
    ∧ id (self st') =
        match (driver.Destroy d (id (self st))).1 with
        | Some _ => id (self st)
        | None => nanoid.generate alphabet (tape st) (cursor st) 32
        end.
Proof.
  intros Hb. unfold Invalidate.
  rewrite (bind_run (on_self (modify Flush)) _ st (with_self (Flush (self st)) st) tt)
    by done.
  assert (Hb1 : bound (with_self (Flush (self st)) st) c h d).
  { destruct Hb as (Hc & Hd & Hh). by split. }
  unfold migrate.
  rewrite (bind_run _ _ _ _ _
             (eq_trans (bind_run get _ _ _ _ eq_refl)
                       (driver_Destroy_run _ c h d _ Hb1))).
  unfold GetID. cbn [self with_self Flush id with_dirty with_flushed with_forgets
                     with_puts with_attributes].
  destruct (driver.Destroy d (id (self st))).1 as [e|].
  - eexists. split; [done |]. done.
  - eexists. split; [done |]. done.
Qed.

End RotateFacts.

(** ** The in-memory driver *)

(** X24. The in-memory driver of the tests.  A write that is not set to
    fail stores the blob, so that a read of the same ID returns it, and
    leaves the other IDs alone; a write set to fail returns an error and
    stores nothing; a destroy removes the record, so that a read of the ID
    fails, and leaves the other IDs alone; nothing is stored in a new
    driver. *)
Theorem memoryDriver_round_trip (d : memoryDriver) (sid other blob : string) :
  (failWrite d = false →
     (driver.Write d sid blob).1 = None
     ∧ driver.Read (driver.Write d sid blob).2 sid = Ok blob
     ∧ (other ≠ sid →
          driver.Read (driver.Write d sid blob).2 other = driver.Read d other))
  ∧ (failWrite d = true → driver.Write d sid blob = (Some "write failed", d))
  ∧ (driver.Destroy d sid).1 = None
  ∧ driver.Read (driver.Destroy d sid).2 sid = Err ("session [" ++ sid ++ "] not found")
  ∧ (other ≠ sid →
       driver.Read (driver.Destroy d sid).2 other = driver.Read d other)
  ∧ driver.Read (newMemoryDriver (failWrite d)) sid
    = Err ("session [" ++ sid ++ "] not found").
Proof.
  cbn [driver.Write driver.Read driver.Destroy memoryDriver_Driver].
  split; [|split; [|split; [|split; [|split]]]].
  - intros ->. cbn [fst snd data]. split; [done |].
    split; [by rewrite lookup_insert_eq |]. intros Hne. by rewrite lookup_insert_ne.
  - by intros ->.
  - done.
  - cbn [fst snd data]. by rewrite lookup_delete_eq.
  - intros Hne. cbn [fst snd data]. by rewrite lookup_delete_ne.
  - cbn [newMemoryDriver data]. by rewrite lookup_empty.
Qed.

(** ** The buffering response writer *)





(** ** Further runs *)

Lemma Extend_then_BuildSession_witness :
  drivers (man fresh_state) !! "memory" = None ∧ "memory" ≠ ""
  ∧ (0 < minutes (GcInterval (man fresh_state)))%Z
  ∧ ∃ st1 s st2,
      on_man (Extend "memory" (Some (newMemoryDriver false))) fresh_state = (Ret None, st1)
      ∧ BuildSession "session" ["memory"] st1 = (Ret (Ok s), st2)
      ∧ driver s = Some "memory".
Proof.
  assert (Hfree : drivers (man fresh_state) !! "memory" = None)
    by (vm_compute; reflexivity).
  assert (Hn : "memory" ≠ "") by discriminate.
  assert (Hpos : (0 < minutes (GcInterval (man fresh_state)))%Z) by reflexivity.
  split; [exact Hfree |]. split; [exact Hn |]. split; [exact Hpos |].
  destruct (Extend_then_BuildSession fresh_state "memory" "session"
              (newMemoryDriver false) Hfree Hn Hpos)
    as (st1 & s & st2 & H1 & _ & H3 & H4 & _).
  exists st1, s, st2. split; [exact H1 |]. split; [exact H3 | exact H4].
Defined.

Lemma Extend_keeps_first_witness :
  drivers (man fresh_state) !! "memory" = None
  ∧ (0 < minutes (GcInterval (man fresh_state)))%Z
  ∧ ∃ st1,
      on_man (Extend "memory" (Some (newMemoryDriver false))) fresh_state = (Ret None, st1)
      ∧ on_man (Extend "memory" (Some (newMemoryDriver true))) st1
        = (Ret (Some "driver [memory] already exists"), st1)
      ∧ drivers (man st1) !! "memory" = Some (newMemoryDriver false).
Proof.
  assert (Hfree : drivers (man fresh_state) !! "memory" = None)
    by (vm_compute; reflexivity).
  assert (Hpos : (0 < minutes (GcInterval (man fresh_state)))%Z) by reflexivity.
  split; [exact Hfree |]. split; [exact Hpos |].
  destruct (Extend_keeps_first fresh_state "memory" (newMemoryDriver false)
              (newMemoryDriver true) Hfree) as [Hreg _].
  destruct (Hreg Hpos) as (st1 & H1 & H2 & H3 & _).
  exists st1. split; [exact H1 |]. split; [exact H2 | exact H3].
Defined.

Lemma BuildSession_rejects_witness :
  drivers (man fresh_state) !! "default" = None
  ∧ BuildSession "session" [] fresh_state
    = (Ret (Err "driver [default] not supported"), fresh_state)
  ∧ BuildSession "session" [""; "mock"] fresh_state
    = (Ret (Err "driver is not set"), fresh_state).
Proof.
  assert (Hfree : drivers (man fresh_state) !! "default" = None)
    by (vm_compute; reflexivity).
  split; [exact Hfree |]. split.
  - exact (BuildSession_rejects fresh_state "session" [] (or_intror Hfree)).
  - exact (BuildSession_rejects fresh_state "session" [""; "mock"] (or_introl eq_refl)).
Defined.

Lemma Regenerate_destroys_old_record_witness :
  bound merge_state demo_codec "mock" backend_seed
  ∧ ∃ st',
      Regenerate [true] merge_state = (Ret None, st')
      ∧ trace st' = [EvDestroy "mock" demo_id]
      ∧ String.length (id (self st')) = 32.
Proof.
  assert (Hb : bound merge_state demo_codec "mock" backend_seed)
    by (by apply demo_bound).
  split; [exact Hb |].
  destruct (Regenerate_destroys_old_record merge_state demo_codec "mock" backend_seed [] Hb)
    as (st' & H1 & H2 & _ & _ & H5).
  exists st'. split; [exact H1 |]. split; [exact H2 |]. by apply H5.
Defined.

Lemma Invalidate_spec_witness :
  bound merge_state demo_codec "mock" backend_seed
  ∧ ∃ st',
      Invalidate merge_state = (Ret None, st')
      ∧ attributes (self st') = ∅
      ∧ trace st' = [EvDestroy "mock" demo_id].
Proof.
  assert (Hb : bound merge_state demo_codec "mock" backend_seed)
    by (by apply demo_bound).
  split; [exact Hb |].
  destruct (Invalidate_spec merge_state demo_codec "mock" backend_seed Hb)
    as (st' & H1 & H2 & _ & _ & _ & H6 & _).
  exists st'. split; [exact H1 |]. split; [exact H2 | exact H6].
Defined.

(** ** Saving again, and the mutex of an ID *)

Section AgainFacts.

Context {D : Type} `{!driver.Driver D}.

Implicit Types (st : State (D:=D)) (s : Session).

Lemma Save_clean_run st :
  dirty (self st) = false → flash_wf (self st) → flash_idle (self st) →
  Save st = (Ret None, st).
Proof.
  intros Hdirty Hwf Hidle. unfold Save.
  rewrite (bind_run (on_self ageFlashData) _ st st tt).
  2:{ unfold on_self. rewrite (ageFlashData_run _ Hwf), after_aging_idle by done.
      by destruct st. }
  rewrite (bind_run get _ st st st) by done. by rewrite Hdirty.
Qed.

(** X27. A save that succeeded leaves the session clean and not started.
    Saving again at once reaches neither the lock nor the driver when no
    flash data is left to age; when the first save left keys in the old
    sequence, the second save ages them and is a save of a dirty session
    again. *)
Theorem Save_again st c h d (blob : string) :
  dirty (self st) = true → flash_wf (self st) → bound st c h d → lock_free st →
  securecookie.Encode c (name (self st)) (save_final c d (after_aging (self st))) = Ok blob →
  (driver.Write d (id (self st)) blob).1 = None →
  ∃ st1,
    Save st = (Ret None, st1)
    ∧ dirty (self st1) = false ∧ started (self st1) = false
    ∧ (flash_seq (self st) "_flash.new" = [] → Save st1 = (Ret None, st1))
    ∧ (flash_seq (self st) "_flash.new" ≠ [] →
         dirty (after_aging (self st1)) = true
         ∧ flash_seq (after_aging (self st1)) "_flash.old" = []).
Proof.
  intros Hdirty Hwf Hb Hfree Henc Hw.
  destruct (Save_ok st c h d blob Hdirty Hwf Hb Hfree Henc Hw) as (st1 & Hrun & Hself & _).
  destruct (after_aging_seq (self st)) as [Hold Hnew].
  pose proof (wf_after_aging _ Hwf) as Hwf1.
  assert (Hseq : ∀ k, flash_seq (self st1) k = flash_seq (after_aging (self st)) k)
    by (intros k; by rewrite Hself).
  assert (Hwf2 : flash_wf (self st1)) by (by rewrite Hself).
  exists st1. split; [exact Hrun |].
  split; [by rewrite Hself |]. split; [by rewrite Hself |]. split.
  - intros Hempty. apply Save_clean_run; [by rewrite Hself | exact Hwf2 |].
    split; rewrite Hseq; [by rewrite Hold | exact Hnew].
  - intros Hbusy.
    assert (Hnot : ¬ flash_idle (self st1)).
    { intros [Ho _]. rewrite Hseq, Hold in Ho. done. }
    rewrite (after_aging_busy _ Hnot). split; [done |].
    unfold flash_seq at 1. rewrite aged_attributes.
    rewrite decide_False by apply old_new_apart. rewrite decide_True by done.
    rewrite Hseq. exact Hnew.
Qed.

(** X28. The mutex of a session ID excludes a second taker and no one
    else.  Once [LockSession] has returned for an ID, a second call for the
    same ID parks and changes nothing, a call for another ID that is free
    goes through, and after [UnlockSession] of the ID the lock can be taken
    again.  [UnlockSession] of an ID that was never locked does nothing. *)
Theorem LockSession_excludes st (sid other : string) :
  sessionLocks (man st) !! sid ≠ Some true →
  other ≠ sid → sessionLocks (man st) !! other ≠ Some true →
  ∃ st1 st2 st3 st4,
    LockSession sid st = (Ret tt, st1)
    ∧ LockSession sid st1 = (Blocked, st1)
    ∧ LockSession other st1 = (Ret tt, st2)
    ∧ UnlockSession sid st1 = (Ret tt, st3)
    ∧ LockSession sid st3 = (Ret tt, st4)
    ∧ sessionLocks (man st3) !! sid = Some false
    ∧ (∀ k, sessionLocks (man st) !! k = None → UnlockSession k st = (Ret tt, st)).
Proof.
  intros Hfree Hne Hother.
  assert (Hheld : sessionLocks (man (locked sid st)) !! sid = Some true)
    by apply lookup_insert_eq.
  assert (Hfree3 : sessionLocks (man (unlocked sid (locked sid st))) !! sid = Some false)
    by apply lookup_insert_eq.
  eexists (locked sid st), _, (unlocked sid (locked sid st)), _.
  split; [by apply LockSession_run |].
  split; [unfold LockSession; by rewrite Hheld |].
  split.
  { apply LockSession_run. cbn [locked man emit with_man sessionLocks with_sessionLocks].
    by rewrite lookup_insert_ne. }
  split; [by apply UnlockSession_run |].
  split; [apply LockSession_run; by rewrite Hfree3 |].
  split; [exact Hfree3 |].
  intros k Hk. unfold UnlockSession. by rewrite Hk.
Qed.

End AgainFacts.

Lemma Save_again_witness :
  dirty (self workers_state) = true
  ∧ flash_wf (self workers_state)
  ∧ bound workers_state merge_codec "mock" backend_seed
  ∧ lock_free workers_state
  ∧ ∃ st1, Save workers_state = (Ret None, st1) ∧ Save st1 = (Ret None, st1).
Proof.
  split; [reflexivity |]. split; [exact worker0_wf |]. split; [exact workers_bound |].
  split; [exact workers_lock_free |].
  assert (Henc : securecookie.Encode merge_codec (name (self workers_state))
                   (save_final merge_codec backend_seed (after_aging (self workers_state)))
                 = Ok "session|k0=0;seed=1;") by (vm_compute; reflexivity).
  assert (Hw : (driver.Write backend_seed (id (self workers_state))
                  "session|k0=0;seed=1;").1 = None) by reflexivity.
  destruct (Save_again workers_state merge_codec "mock" backend_seed
              "session|k0=0;seed=1;" eq_refl worker0_wf workers_bound workers_lock_free
              Henc Hw) as (st1 & H1 & _ & _ & H4 & _).
  exists st1. split; [exact H1 |]. apply H4. vm_compute. reflexivity.
Defined.

Lemma LockSession_excludes_witness :
  sessionLocks (man fresh_state) !! demo_id ≠ Some true
  ∧ "other" ≠ demo_id
  ∧ ∃ st1 st2,
      LockSession demo_id fresh_state = (Ret tt, st1)
      ∧ LockSession demo_id st1 = (Blocked, st1)
      ∧ LockSession "other" st1 = (Ret tt, st2).
Proof.
  assert (Hfree : ∀ k : string, sessionLocks (man fresh_state) !! k ≠ Some true).
  { intros k. cbn. by rewrite lookup_empty. }
  assert (Hne : "other" ≠ demo_id) by discriminate.
  split; [apply Hfree |]. split; [exact Hne |].
  destruct (LockSession_excludes fresh_state demo_id "other" (Hfree _) Hne (Hfree _))
    as (st1 & st2 & _ & _ & H1 & H2 & H3 & _).
  exists st1, st2. split; [exact H1 |]. split; [exact H2 | exact H3].
Defined.
